(** * Temporal fusion of classifier scores in the knock-detection sketch

    A shallow embedding of [nano_ble33_sense_microphone_new_works.ino]:
    the recording of a window of audio samples and the heap block that
    holds them, the circular buffer of the last [FUSION_WINDOW]
    classification vectors, the weighted and boosted sum computed from
    it, the knock verdict, and the inferencing cycle [loop()] around
    them.

    The sketch computes in C [float].  The embedding is parametric in
    the scalar arithmetic (class [Scalar]): every statement about the
    buffer, the cursor and the control flow holds for any arithmetic.
    Two arithmetics are given: [binary32], the [float] of the board
    with the rounding of every operation, and the exact rationals, for
    the real-number reading of the scores. *)

From Stdlib Require Import ZArith QArith Lqa String SpecFloat.
From stdpp Require Import base list.

(** ** Scalars *)

(** The operations the sketch applies to [float] values: the zero of
    the array initialisers, [+=], [*], [*=] and [>]. *)
Class Scalar (F : Type) := {
  fzero : F;
  fadd : F -> F -> F;
  fmul : F -> F -> F;
  fgtb : F -> F -> bool
}.

(** Exact rational arithmetic. *)
#[export] Instance Q_Scalar : Scalar Q := {
  fzero := 0%Q;
  fadd := Qplus;
  fmul := Qmult;
  fgtb := fun a b => if Qlt_le_dec b a then true else false
}.

(** The [float] of the board: IEEE 754 binary32, 24 bits of precision
    and exponents below 128.  Every sum and product is rounded to the
    nearest value, ties to even, as [SpecFloat] defines the
    operations; the products and sums of the sketch are taken as
    written, one rounding each.  A comparison with a NaN is false. *)
Definition binary32 : Type := spec_float.

Definition binary32_prec : Z := 24.
Definition binary32_emax : Z := 128.

#[export] Instance binary32_Scalar : Scalar binary32 := {
  fzero := S754_zero false;
  fadd := SFadd binary32_prec binary32_emax;
  fmul := SFmul binary32_prec binary32_emax;
  fgtb := fun a b => SFltb b a
}.

(** An integer as a [float], and the decimal literal [num / den]
    rounded to the nearest [float], as the compiler reads [0.05f]. *)
Definition binary32_of_Z (m : Z) : binary32 :=
  binary_normalize binary32_prec binary32_emax m 0 false.

Definition binary32_literal (num den : Z) : binary32 :=
  SFdiv binary32_prec binary32_emax (binary32_of_Z num) (binary32_of_Z den).

(** The next [float] above. *)
Definition binary32_succ (x : binary32) : binary32 :=
  SFsucc binary32_prec binary32_emax x.

(** The sum of the first [n] weights. *)
Definition total_weight (n : nat) (weights : list Q) : Q :=
  foldl (fun acc i => (acc + nth i weights 0)%Q) 0%Q (seq 0 n).

(** ** Data *)

(** [ei_impulse_result_classification_t]: one label and its score. *)
Record ei_impulse_result_classification_t (F : Type) := {
  label : string;
  value : F
}.
Arguments label {F} _.
Arguments value {F} _.

(** The globals [classification_buffer], [fusion_index] and
    [fusion_buffer_full].  The cursor is a C [int] that only takes the
    values [0 .. FUSION_WINDOW - 1]. *)
Record fusion_state (F : Type) := {
  classification_buffer : list (list F);
  fusion_index : nat;
  fusion_buffer_full : bool
}.
Arguments classification_buffer {F} _.
Arguments fusion_index {F} _.
Arguments fusion_buffer_full {F} _.

(** What the fusion part of a cycle writes to the serial port: the
    verdict line, and a line [label: value] per class. *)
Inductive serial_line (F : Type) :=
| KnockDetected
| NoKnockDetected
| FusedValue (lbl : string) (v : F).
Arguments KnockDetected {F}.
Arguments NoKnockDetected {F}.
Arguments FusedValue {F} _ _.

(** ** The sampling phase *)

(** Hardware calls ([millis], [micros], [analogRead]) return what the
    board reports.  A computation consumes a finite list of such
    reports, one per call and in call order; it has no result when the
    list ends before the computation does. *)
Definition hw (A : Type) : Type := list Z -> option (A * list Z).

Definition hw_ret {A} (a : A) : hw A := fun rs => Some (a, rs).

Definition hw_bind {A B} (m : hw A) (k : A -> hw B) : hw B :=
  fun rs => match m rs with
            | Some (a, rs') => k a rs'
            | None => None
            end.

Notation "x <- m ;; k" := (hw_bind m (fun x => k))
  (at level 100, m at next level, right associativity).

Local Open Scope Z_scope.

(** [unsigned long] and [uint32_t] on the board: 32 bits. *)
Definition u32 (x : Z) : Z := x mod 2 ^ 32.

(** The cast [(int16_t)]. *)
Definition to_int16 (x : Z) : Z := (x + 2 ^ 15) mod 2 ^ 16 - 2 ^ 15.

Definition hw_read : hw Z :=
  fun rs => match rs with
            | [] => None
            | r :: rs' => Some (r, rs')
            end.

Definition millis : hw Z := r <- hw_read ;; hw_ret (u32 r).
Definition micros : hw Z := r <- hw_read ;; hw_ret (u32 r).
Definition analogRead : hw Z := hw_read.

(** [#define SAMPLE_INTERVAL 125] and [timeout_ms = 10000]. *)
Definition SAMPLE_INTERVAL : Z := 125.
Definition timeout_ms : Z := 10000.

(** The [while] loop of [microphone_inference_record].  [samples] is
    [inference.buffer[0 .. buf_count)]; the result is the returned
    flag with the samples taken.  Every iteration makes a hardware
    call, so fuel beyond the number of pending reports is never used
    up.  [delayMicroseconds] only lets time pass. *)
Fixpoint record_loop (fuel : nat) (n_samples start_time : Z)
    (next_sample_time last_report_time : Z) (samples : list Z)
    : hw (bool * list Z) :=
  match fuel with
  | O => fun _ => None
  | S fuel' =>
    if Z.of_nat (length samples) <? n_samples then
      now <- millis ;;
      if timeout_ms <? u32 (now - start_time) then
        hw_ret (false, samples)
      else
        us <- micros ;;
        if next_sample_time <=? us then
          a <- analogRead ;;
          current_time <- millis ;;
          record_loop fuel' n_samples start_time
            (u32 (next_sample_time + SAMPLE_INTERVAL))
            (if 1000 <? u32 (current_time - last_report_time)
             then current_time else last_report_time)
            (samples ++ [to_int16 a])
        else
          record_loop fuel' n_samples start_time
            next_sample_time last_report_time samples
    else
      (* the completion message reads the clock once more *)
      _ <- millis ;;
      hw_ret (true, samples)
  end.

Definition microphone_inference_record (n_samples : Z) : hw (bool * list Z) :=
  fun rs =>
    (start_time <- millis ;;
     next_sample_time <- micros ;;
     record_loop (S (length rs)) n_samples start_time
       next_sample_time start_time []) rs.

Local Close Scope Z_scope.

(** The [EI_IMPULSE_ERROR] codes of the inferencing library, which is
    not part of the sketch; zero is [EI_IMPULSE_OK]. *)
Definition EI_IMPULSE_ERROR : Type := Z.
Definition EI_IMPULSE_OK : EI_IMPULSE_ERROR := 0%Z.

(** ** The block of audio samples *)

(** [inference.buffer]: a null pointer, a block of the heap with room
    for [capacity] samples, or a block that has been freed (the
    pointer keeps its value). *)
Inductive audio_block := NoBlock | LiveBlock (capacity : Z) | FreedBlock.

(** [inference_t]: the block, the samples taken so far and the samples
    of a window. *)
Record inference_t := {
  buffer : audio_block;
  buf_count : Z;
  n_samples : Z
}.

(** [static inference_t inference]: static storage starts as zeros. *)
Definition inference_initial : inference_t :=
  {| buffer := NoBlock; buf_count := 0; n_samples := 0 |}.

(** The globals of the sketch: those of the fusion and [inference]. *)
Record sketch_globals (F : Type) := {
  fusion : fusion_state F;
  inference : inference_t
}.
Arguments fusion {F} _.
Arguments inference {F} _.

(** What a piece of the sketch does: it returns, or it leaves defined
    behaviour (a store through a null or dangling pointer or past the
    end of the block, a second [free] of the same block). *)
Inductive outcome (A : Type) := Returned (a : A) | Undefined.
Arguments Returned {A} _.
Arguments Undefined {A}.

Local Open Scope Z_scope.

(** [microphone_inference_start]: [malloc_ok] says whether [malloc]
    returned a block.  The size [n_samples * sizeof(int16_t)] is
    computed in the 32 bits of [size_t], and the block has room for
    that many bytes.  The pointer is assigned in both cases; the
    counters only when it is not null. *)
Definition microphone_inference_start (malloc_ok : bool) (n : Z)
    (inference : inference_t) : bool * inference_t :=
  if malloc_ok
  then (true, {| buffer := LiveBlock (u32 (u32 n * 2) / 2);
                 buf_count := 0;
                 n_samples := u32 n |})
  else (false, {| buffer := NoBlock;
                  buf_count := buf_count inference;
                  n_samples := n_samples inference |}).

(** The stores of a recording,
    [inference.buffer[inference.buf_count++] = ...] from
    [buf_count = 0]: the samples taken go to the first places of the
    block.  A store through a null or freed pointer, or beyond the
    block, is undefined. *)
Definition store_samples (inference : inference_t) (samples : list Z)
    : outcome inference_t :=
  let count := Z.of_nat (length samples) in
  if match buffer inference with
     | LiveBlock capacity => count <=? capacity
     | NoBlock | FreedBlock => count =? 0
     end
  then Returned {| buffer := buffer inference;
                   buf_count := count;
                   n_samples := n_samples inference |}
  else Undefined.

(** [microphone_inference_end]: [free(inference.buffer)].  The pointer
    keeps its value: a live block becomes a freed one, freeing a null
    pointer does nothing, and freeing a freed block is undefined. *)
Definition microphone_inference_end (inference : inference_t)
    : outcome inference_t :=
  match buffer inference with
  | LiveBlock _ =>
    Returned {| buffer := FreedBlock;
                buf_count := buf_count inference;
                n_samples := n_samples inference |}
  | NoBlock => Returned inference
  | FreedBlock => Undefined
  end.

Local Close Scope Z_scope.

(** ** The constants of the sketch, over the rationals *)

Module Nano33.

Definition FUSION_WINDOW : nat := 5.

(** Modelled from the spec: the label count of the generated
    inferencing header, which is not among the sources.  The scenarios
    of the specification have three classes, and [class_boost] has
    three entries, for Engine, Knock and Neither. *)
Definition EI_CLASSIFIER_LABEL_COUNT : nat := 3.

Definition fusion_weights : list Q := [0.05; 0.10; 0.20; 0.30; 0.35]%Q.
Definition class_boost : list Q := [1.0; 2.0; 1.0]%Q.
Definition KNOCK_THRESHOLD : Q := 0.25%Q.

(** A classification array with the three scores. *)
Definition classification (engine knock neither : Q)
    : list (ei_impulse_result_classification_t Q) :=
  [ {| label := "Engine"; value := engine |};
    {| label := "Knock"; value := knock |};
    {| label := "Neither"; value := neither |} ].

End Nano33.

(** ** The constants of the sketch, as the [float] values of the board *)

Module Nano33Float.

Definition fusion_weights : list binary32 :=
  [ binary32_literal 5 100; binary32_literal 10 100; binary32_literal 20 100;
    binary32_literal 30 100; binary32_literal 35 100 ].
Definition class_boost : list binary32 :=
  [ binary32_of_Z 1; binary32_of_Z 2; binary32_of_Z 1 ].
Definition KNOCK_THRESHOLD : binary32 := binary32_literal 25 100.

(** A classification array with the three scores. *)
Definition classification (engine knock neither : binary32)
    : list (ei_impulse_result_classification_t binary32) :=
  [ {| label := "Engine"; value := engine |};
    {| label := "Knock"; value := knock |};
    {| label := "Neither"; value := neither |} ].

End Nano33Float.

(** ** The fusion code *)

Section Sketch.

Context {F : Type} `{Scalar F}.

(** [#define FUSION_WINDOW] and the classifier's
    [EI_CLASSIFIER_LABEL_COUNT], which comes from the generated
    inferencing header. *)
Variable FUSION_WINDOW : nat.
Variable EI_CLASSIFIER_LABEL_COUNT : nat.

(** The constant tables of the sketch. *)
Variable fusion_weights : list F.
Variable class_boost : list F.
Variable KNOCK_THRESHOLD : F.

(** [EI_CLASSIFIER_RAW_SAMPLE_COUNT] of the same header, the samples
    per window. *)
Variable EI_CLASSIFIER_RAW_SAMPLE_COUNT : Z.

(** The classifier of the inferencing library: from the recorded
    samples to an error code and the classification array. *)
Variable run_classifier :
  list Z -> EI_IMPULSE_ERROR * list (ei_impulse_result_classification_t F).

(** Array reads [a[i]] and [a[i][c]].  The sketch keeps every index
    inside its array; an index outside reads as zero here. *)
Definition at1 (a : list F) (i : nat) : F := nth i a fzero.
Definition at2 (a : list (list F)) (i c : nat) : F := nth c (nth i a []) fzero.

(** Array write [a[i][c] = x]. *)
Definition set2 (a : list (list F)) (i c : nat) (x : F) : list (list F) :=
  alter (fun row => <[c := x]> row) i a.

(** [result.classification[c].value] *)
Definition value_at (result : list (ei_impulse_result_classification_t F))
    (c : nat) : F :=
  match result !! c with Some e => value e | None => fzero end.

(** [static float classification_buffer[..][..] = {0}], cursor 0,
    flag false. *)
Definition initial_state : fusion_state F :=
  {| classification_buffer :=
       replicate FUSION_WINDOW (replicate EI_CLASSIFIER_LABEL_COUNT fzero);
     fusion_index := 0;
     fusion_buffer_full := false |}.

(** The copy loop of the push:
    [classification_buffer[fusion_index][c] = result.classification[c].value]
    for every class [c]. *)
Definition store_result (buf : list (list F)) (idx : nat)
    (result : list (ei_impulse_result_classification_t F)) : list (list F) :=
  foldl (fun b c => set2 b idx c (value_at result c)) buf
        (seq 0 EI_CLASSIFIER_LABEL_COUNT).

(** The push: the copy, then [fusion_index++] with the wrap that also
    sets the flag. *)
Definition fusion_push (st : fusion_state F)
    (result : list (ei_impulse_result_classification_t F)) : fusion_state F :=
  let buf := store_result (classification_buffer st) (fusion_index st) result in
  let idx := S (fusion_index st) in
  if FUSION_WINDOW <=? idx
  then {| classification_buffer := buf;
          fusion_index := 0;
          fusion_buffer_full := true |}
  else {| classification_buffer := buf;
          fusion_index := idx;
          fusion_buffer_full := fusion_buffer_full st |}.

(** The weighted sum:
    [S[c] += fusion_weights[i] * classification_buffer[i][c]]
    for [i] outer and [c] inner, from [S = {0}]. *)
Definition weighted_sum (buf : list (list F)) : list F :=
  foldl (fun S i =>
           foldl (fun S c =>
                    <[c := fadd (at1 S c)
                                (fmul (at1 fusion_weights i) (at2 buf i c))]> S)
                 S (seq 0 EI_CLASSIFIER_LABEL_COUNT))
        (replicate EI_CLASSIFIER_LABEL_COUNT fzero)
        (seq 0 FUSION_WINDOW).

(** The boost: [S[c] *= class_boost[c]]. *)
Definition apply_boost (S : list F) : list F :=
  foldl (fun S c => <[c := fmul (at1 S c) (at1 class_boost c)]> S)
        S (seq 0 EI_CLASSIFIER_LABEL_COUNT).

Definition fuse (buf : list (list F)) : list F :=
  apply_boost (weighted_sum buf).

(** [S[1] > KNOCK_THRESHOLD] *)
Definition knock (S : list F) : bool := fgtb (at1 S 1) KNOCK_THRESHOLD.

(** The report: the verdict line, then one line per class with the
    label of this cycle's result and the fused value. *)
Definition fusion_report (buf : list (list F))
    (result : list (ei_impulse_result_classification_t F))
    : list (serial_line F) :=
  let S := fuse buf in
  (if knock S then KnockDetected else NoKnockDetected)
    :: map (fun ix =>
              FusedValue (match result !! ix with
                          | Some e => label e
                          | None => EmptyString
                          end)
                         (at1 S ix))
           (seq 0 EI_CLASSIFIER_LABEL_COUNT).

(** The fusion part of [loop()]: the push, and the report once the
    flag is set. *)
Definition fusion_cycle (st : fusion_state F)
    (result : list (ei_impulse_result_classification_t F))
    : fusion_state F * list (serial_line F) :=
  let st' := fusion_push st result in
  (st', if fusion_buffer_full st'
        then fusion_report (classification_buffer st') result
        else []).


(** [setup()] on the audio globals: the serial lines apart, it starts
    the recorder, and returns whether or not that worked. *)
Definition setup (malloc_ok : bool) : inference_t :=
  snd (microphone_inference_start malloc_ok EI_CLASSIFIER_RAW_SAMPLE_COUNT
         inference_initial).

(** The globals when [loop()] is first called. *)
Definition start_up (malloc_ok : bool) : sketch_globals F :=
  {| fusion := initial_state; inference := setup malloc_ok |}.

(** One call of [loop()], given the hardware reports of the cycle.
    The recording takes [inference.n_samples] samples and stores them
    in the block; both early returns come before the push, and the
    second one frees the block.  Nothing in [loop()] assigns
    [inference.buffer] or [inference.n_samples].  Left out: the
    diagnostic [ei_printf] lines and the [delay] calls.  The classifier
    is a function of the samples just recorded; how the library reads
    them through [microphone_audio_signal_get_data] is not modelled.
    There is no result when the reports end inside the recording. *)
Definition loop (g : sketch_globals F) (reports : list Z)
    : option (outcome (sketch_globals F * list (serial_line F))) :=
  match microphone_inference_record (n_samples (inference g)) reports with
  | None => None
  | Some ((recorded, samples), _) =>
    match store_samples (inference g) samples with
    | Undefined => Some Undefined
    | Returned inference' =>
      if negb recorded
      then Some (Returned ({| fusion := fusion g; inference := inference' |}, []))
      else
        let '(r, result) := run_classifier samples in
        if negb (r =? EI_IMPULSE_OK)%Z then
          match microphone_inference_end inference' with
          | Undefined => Some Undefined
          | Returned inference'' =>
            Some (Returned ({| fusion := fusion g;
                               inference := inference'' |}, []))
          end
        else
          let cycle := fusion_cycle (fusion g) result in
          Some (Returned ({| fusion := fst cycle; inference := inference' |},
                          snd cycle))
    end
  end.

(** Successive calls of [loop()], one list of reports per cycle.
    Nothing is said of what follows undefined behaviour. *)
Fixpoint run (g : sketch_globals F) (cycles : list (list Z))
    : option (outcome (sketch_globals F * list (list (serial_line F)))) :=
  match cycles with
  | [] => Some (Returned (g, []))
  | reports :: cycles' =>
    match loop g reports with
    | None => None
    | Some Undefined => Some Undefined
    | Some (Returned (g', out)) =>
      match run g' cycles' with
      | None => None
      | Some Undefined => Some Undefined
      | Some (Returned (g'', outs)) => Some (Returned (g'', out :: outs))
      end
    end
  end.

(** ** Vocabulary of the statements *)

(** The scores of a classification array. *)
Definition values (result : list (ei_impulse_result_classification_t F))
    : list F :=
  value <$> result.

(** The shape the C declarations give the globals. *)
Definition well_shaped (st : fusion_state F) : Prop :=
  length (classification_buffer st) = FUSION_WINDOW
  ∧ Forall (fun row => length row = EI_CLASSIFIER_LABEL_COUNT)
           (classification_buffer st)
  ∧ fusion_index st < FUSION_WINDOW.

(** The recorder once started: a live block with room for a window. *)
Definition recorder_started (inference : inference_t) : Prop :=
  match buffer inference with
  | LiveBlock capacity => (0 <= n_samples inference <= capacity)%Z
  | NoBlock | FreedBlock => False
  end.

(** Pushes in a row, and the state a list of pushes leaves behind
    after start-up. *)
Definition pushes (st : fusion_state F)
    (results : list (list (ei_impulse_result_classification_t F)))
    : fusion_state F :=
  foldl fusion_push st results.

Definition after_pushes
    (results : list (list (ei_impulse_result_classification_t F)))
    : fusion_state F :=
  pushes initial_state results.

(** The copy loop of the push after its first [n] iterations. *)
Definition store_upto (n : nat) (buf : list (list F)) (idx : nat)
    (result : list (ei_impulse_result_classification_t F)) : list (list F) :=
  foldl (fun b c => set2 b idx c (value_at result c)) buf (seq 0 n).

(** The weighted-sum loop after its first [n] rows. *)
Definition weighted_upto (n : nat) (buf : list (list F)) : list F :=
  foldl (fun S i =>
           foldl (fun S c =>
                    <[c := fadd (at1 S c)
                                (fmul (at1 fusion_weights i) (at2 buf i c))]> S)
                 S (seq 0 EI_CLASSIFIER_LABEL_COUNT))
        (replicate EI_CLASSIFIER_LABEL_COUNT fzero)
        (seq 0 n).

(** What the weighted-sum loop accumulates for class [c] over the
    first [n] rows: [((0 + w0 * b0c) + w1 * b1c) + ...]. *)
Definition weighted_score (n : nat) (buf : list (list F)) (c : nat) : F :=
  foldl (fun acc i => fadd acc (fmul (at1 fusion_weights i) (at2 buf i c)))
        fzero (seq 0 n).

(** What a cycle with a window of [n] samples hands to the push:
    nothing when the recording or the classifier failed.  The outer
    [None] is a list of reports that ends inside the recording. *)
Definition acquired (n : Z) (reports : list Z)
    : option (option (list (ei_impulse_result_classification_t F))) :=
  match microphone_inference_record n reports with
  | None => None
  | Some ((false, _), _) => Some None
  | Some ((true, samples), _) =>
    if negb (fst (run_classifier samples) =? EI_IMPULSE_OK)%Z then Some None
    else Some (Some (snd (run_classifier samples)))
  end.

(** Whether the recording completes and the classifier then fails. *)
Definition classifier_fails (n : Z) (reports : list Z) : bool :=
  match microphone_inference_record n reports with
  | Some ((true, samples), _) =>
    negb (fst (run_classifier samples) =? EI_IMPULSE_OK)%Z
  | _ => false
  end.

(** The classification arrays pushed by a list of cycles, in order. *)
Definition pushed (n : Z) (cycles : list (list Z))
    : list (list (ei_impulse_result_classification_t F)) :=
  omap (fun reports => match acquired n reports with
                       | Some (Some result) => Some result
                       | _ => None
                       end) cycles.

(** *** The fusion as the specification words it

    [S[c] = boosts[c] * Σ_i weights[i] * history[i][c]], where
    [history] holds the last [FUSION_WINDOW] pushed vectors, oldest
    first and most recent last. *)
Definition history_spec (pushed_vectors : list (list F)) : list (list F) :=
  drop (length pushed_vectors - FUSION_WINDOW) pushed_vectors.

Definition fuse_spec (history : list (list F)) : list F :=
  map (fun c =>
         fmul (at1 class_boost c)
              (foldl (fun acc i =>
                        fadd acc (fmul (at1 fusion_weights i) (at2 history i c)))
                     fzero (seq 0 FUSION_WINDOW)))
      (seq 0 EI_CLASSIFIER_LABEL_COUNT).

Definition decide_spec (fused : list F) (target_class : nat) (threshold : F)
    : bool :=
  fgtb (at1 fused target_class) threshold.

(** ** The push *)

Lemma set2_length (buf : list (list F)) i c x :
  length (set2 buf i c x) = length buf.
Proof. apply length_alter. Qed.

Lemma set2_lookup_ne (buf : list (list F)) i j c x :
  i ≠ j -> set2 buf i c x !! j = buf !! j.
Proof. intros. unfold set2. by rewrite list_lookup_alter_ne. Qed.

Lemma set2_lookup_eq (buf : list (list F)) i c x :
  set2 buf i c x !! i = (fun row => <[c := x]> row) <$> buf !! i.
Proof. apply list_lookup_alter_eq. Qed.

Lemma store_upto_S n buf idx result :
  store_upto (S n) buf idx result =
  set2 (store_upto n buf idx result) idx n (value_at result n).
Proof. unfold store_upto. by rewrite seq_S, foldl_snoc. Qed.

Lemma store_upto_length n buf idx result :
  length (store_upto n buf idx result) = length buf.
Proof.
  induction n as [|n IH]; [done|].
  by rewrite store_upto_S, set2_length.
Qed.

Lemma store_upto_lookup_ne n buf idx result j :
  idx ≠ j -> store_upto n buf idx result !! j = buf !! j.
Proof.
  intros Hne. induction n as [|n IH]; [done|].
  by rewrite store_upto_S, set2_lookup_ne.
Qed.

Lemma value_at_lookup result c e :
  result !! c = Some e -> value_at result c = value e.
Proof. intros Hc. unfold value_at. by rewrite Hc. Qed.

Lemma values_length result : length (values result) = length result.
Proof. unfold values. by rewrite length_fmap. Qed.

(** After [n] iterations the row at the cursor starts with the first
    [n] scores of the result and keeps its old tail. *)
Lemma store_upto_lookup_eq n buf idx result row :
  buf !! idx = Some row ->
  n ≤ length row ->
  n ≤ length result ->
  store_upto n buf idx result !! idx
  = Some (take n (values result) ++ drop n row).
Proof.
  intros Hrow. induction n as [|n IH]; intros Hn Hr.
  - by rewrite drop_0.
  - rewrite store_upto_S, set2_lookup_eq, IH by lia. simpl. f_equal.
    destruct (lookup_lt_is_Some_2 result n) as [e He]; [lia|].
    destruct (lookup_lt_is_Some_2 row n) as [x Hx]; [lia|].
    assert (Hv : values result !! n = Some (value e)).
    { unfold values. by rewrite list_lookup_fmap, He. }
    assert (Hlen : length (take n (values result)) = n).
    { rewrite length_take, values_length. lia. }
    rewrite (value_at_lookup _ _ _ He).
    rewrite (take_S_r _ _ _ Hv), (drop_S _ _ _ Hx).
    rewrite insert_app_r_alt by lia.
    rewrite Hlen, Nat.sub_diag. simpl. by rewrite <- app_assoc.
Qed.

(** On arrays of the declared shape the copy loop replaces the row at
    the cursor by the scores of the result. *)
Lemma store_result_insert buf idx result row :
  buf !! idx = Some row ->
  length row = EI_CLASSIFIER_LABEL_COUNT ->
  length result = EI_CLASSIFIER_LABEL_COUNT ->
  store_result buf idx result = <[idx := values result]> buf.
Proof.
  intros Hrow Hlen Hres. apply list_eq. intros j.
  change (store_result buf idx result)
    with (store_upto EI_CLASSIFIER_LABEL_COUNT buf idx result).
  destruct (decide (idx = j)) as [<-|Hne].
  - rewrite (store_upto_lookup_eq _ _ _ _ _ Hrow) by lia.
    rewrite list_lookup_insert_eq by (by eapply lookup_lt_Some).
    f_equal. rewrite take_ge, drop_ge, app_nil_r; [done|lia|].
    rewrite values_length. lia.
  - by rewrite store_upto_lookup_ne, list_lookup_insert_ne.
Qed.

Lemma store_result_length buf idx result :
  length (store_result buf idx result) = length buf.
Proof. apply store_upto_length. Qed.

Lemma store_result_lookup_ne buf idx result j :
  idx ≠ j -> store_result buf idx result !! j = buf !! j.
Proof. apply store_upto_lookup_ne. Qed.

Lemma fusion_push_buffer st result :
  classification_buffer (fusion_push st result)
  = store_result (classification_buffer st) (fusion_index st) result.
Proof. unfold fusion_push. by destruct (_ <=? _). Qed.

Lemma fusion_push_index st result :
  fusion_index (fusion_push st result)
  = if FUSION_WINDOW <=? S (fusion_index st) then 0 else S (fusion_index st).
Proof. unfold fusion_push. by destruct (_ <=? _). Qed.

Lemma fusion_push_full st result :
  fusion_buffer_full (fusion_push st result)
  = if FUSION_WINDOW <=? S (fusion_index st) then true
    else fusion_buffer_full st.
Proof. unfold fusion_push. by destruct (_ <=? _). Qed.

Lemma well_shaped_row st :
  well_shaped st ->
  ∃ row, classification_buffer st !! fusion_index st = Some row
         ∧ length row = EI_CLASSIFIER_LABEL_COUNT.
Proof.
  intros (Hlen & Hrows & Hidx).
  destruct (lookup_lt_is_Some_2 (classification_buffer st) (fusion_index st))
    as [row Hrow]; [lia|].
  exists row. split; [done|].
  by eapply (Forall_lookup_1 _ _ _ _ Hrows).
Qed.

Lemma fusion_push_buffer_insert st result :
  well_shaped st ->
  length result = EI_CLASSIFIER_LABEL_COUNT ->
  classification_buffer (fusion_push st result)
  = <[fusion_index st := values result]> (classification_buffer st).
Proof.
  intros Hst Hres. destruct (well_shaped_row _ Hst) as (row & Hrow & Hlen).
  rewrite fusion_push_buffer. by eapply store_result_insert.
Qed.

Lemma initial_state_well_shaped :
  0 < FUSION_WINDOW -> well_shaped initial_state.
Proof.
  intros HW. split_and!; simpl.
  - by rewrite length_replicate.
  - apply Forall_replicate. by rewrite length_replicate.
  - done.
Qed.

Lemma fusion_push_well_shaped st result :
  well_shaped st ->
  length result = EI_CLASSIFIER_LABEL_COUNT ->
  well_shaped (fusion_push st result).
Proof.
  intros Hst Hres. pose proof Hst as (Hlen & Hrows & Hidx).
  split_and!.
  - by rewrite fusion_push_buffer, store_result_length.
  - rewrite fusion_push_buffer_insert by done.
    apply Forall_insert; [done|]. by rewrite values_length.
  - rewrite fusion_push_index.
    destruct (FUSION_WINDOW <=? S (fusion_index st)) eqn:E; [lia|].
    apply Nat.leb_gt in E. lia.
Qed.

(** ** Sequences of pushes *)

Lemma succ_mod_wrap n w :
  0 < w ->
  (if w <=? S (n `mod` w) then 0 else S (n `mod` w)) = S n `mod` w.
Proof.
  intros Hw.
  pose proof (Nat.mod_upper_bound n w ltac:(lia)) as Hr.
  pose proof (Nat.div_mod_eq n w) as Hn.
  destruct (w <=? S (n `mod` w)) eqn:E.
  - apply Nat.leb_le in E.
    apply (Nat.mod_unique (S n) w (S (n `div` w)) 0); [lia|]. nia.
  - apply Nat.leb_gt in E.
    apply (Nat.mod_unique (S n) w (n `div` w) (S (n `mod` w))); [lia|]. nia.
Qed.

Lemma pushes_snoc st results result :
  pushes st (results ++ [result]) = fusion_push (pushes st results) result.
Proof. unfold pushes. by rewrite foldl_snoc. Qed.

Lemma after_pushes_snoc results result :
  after_pushes (results ++ [result])
  = fusion_push (after_pushes results) result.
Proof. apply pushes_snoc. Qed.

(** The cursor counts the pushes modulo the window. *)
Lemma after_pushes_index results :
  0 < FUSION_WINDOW ->
  fusion_index (after_pushes results) = length results `mod` FUSION_WINDOW.
Proof.
  intros HW. induction results as [|result results IH] using rev_ind.
  - simpl. by rewrite Nat.Div0.mod_0_l.
  - rewrite after_pushes_snoc, fusion_push_index, IH, length_app. simpl.
    rewrite Nat.add_1_r. by apply succ_mod_wrap.
Qed.

(** The flag says whether a whole window has been pushed. *)
Lemma after_pushes_full results :
  0 < FUSION_WINDOW ->
  fusion_buffer_full (after_pushes results)
  = (FUSION_WINDOW <=? length results).
Proof.
  intros HW. induction results as [|result results IH] using rev_ind.
  - simpl. symmetry. apply Nat.leb_gt. lia.
  - rewrite after_pushes_snoc, fusion_push_full, IH, after_pushes_index by done.
    rewrite length_app. simpl. rewrite Nat.add_1_r.
    pose proof (Nat.mod_upper_bound (length results) FUSION_WINDOW ltac:(lia)).
    destruct (FUSION_WINDOW <=? S (length results `mod` FUSION_WINDOW)) eqn:E.
    + apply Nat.leb_le in E. symmetry. apply Nat.leb_le.
      pose proof (Nat.Div0.mod_le (length results) FUSION_WINDOW). lia.
    + apply Nat.leb_gt in E.
      destruct (FUSION_WINDOW <=? length results) eqn:E'.
      * apply Nat.leb_le in E'. symmetry. apply Nat.leb_le. lia.
      * apply Nat.leb_gt in E'. rewrite Nat.mod_small in E by done.
        symmetry. apply Nat.leb_gt. lia.
Qed.

Lemma after_pushes_well_shaped results :
  0 < FUSION_WINDOW ->
  Forall (fun result => length result = EI_CLASSIFIER_LABEL_COUNT) results ->
  well_shaped (after_pushes results).
Proof.
  intros HW. induction results as [|result results IH] using rev_ind.
  - intros _. by apply initial_state_well_shaped.
  - intros [Hrs Hr%Forall_inv]%Forall_app.
    rewrite after_pushes_snoc. apply fusion_push_well_shaped; auto.
Qed.

(** Push number [p] (counted from 0) sits in slot [p mod FUSION_WINDOW]
    for as long as fewer than [FUSION_WINDOW] pushes have followed it. *)
Lemma after_pushes_slot results p result :
  0 < FUSION_WINDOW ->
  Forall (fun result => length result = EI_CLASSIFIER_LABEL_COUNT) results ->
  results !! p = Some result ->
  length results ≤ p + FUSION_WINDOW ->
  classification_buffer (after_pushes results) !! (p `mod` FUSION_WINDOW)
  = Some (values result).
Proof.
  intros HW. revert p result.
  induction results as [|last results IH] using rev_ind;
    intros p result Hall Hp Hlen; [done|].
  apply Forall_app in Hall as [Hrs Hr%Forall_inv].
  pose proof (after_pushes_well_shaped results HW Hrs) as Hws.
  rewrite after_pushes_snoc, fusion_push_buffer_insert by done.
  rewrite after_pushes_index by done.
  rewrite length_app in Hlen. simpl in Hlen.
  destruct (decide (p = length results)) as [->|Hne].
  - rewrite list_lookup_middle in Hp by done. injection Hp as ->.
    apply list_lookup_insert_eq.
    destruct Hws as (-> & _ & _). by apply Nat.mod_upper_bound, Nat.neq_0_lt_0.
  - assert (Hlt : p < length results).
    { apply lookup_lt_Some in Hp. rewrite length_app in Hp. simpl in Hp. lia. }
    rewrite lookup_app_l in Hp by done.
    rewrite list_lookup_insert_ne; [apply IH; auto; lia|].
    intros Heq.
    pose proof (Nat.div_mod_eq p FUSION_WINDOW).
    pose proof (Nat.div_mod_eq (length results) FUSION_WINDOW).
    assert (p `div` FUSION_WINDOW < length results `div` FUSION_WINDOW) by nia.
    nia.
Qed.

(** ** The weighted and boosted sum *)

Lemma at1_insert (sc : list F) c c' x :
  at1 (<[c := x]> sc) c'
  = if decide (c = c' ∧ c < length sc) then x else at1 sc c'.
Proof.
  unfold at1. rewrite !nth_lookup, list_lookup_insert.
  by destruct (decide (c = c' ∧ c < length sc)).
Qed.

Lemma at1_replicate n c : at1 (replicate n fzero) c = fzero.
Proof.
  unfold at1. rewrite nth_lookup.
  destruct (replicate n fzero !! c) as [x|] eqn:E; [|done].
  by apply lookup_replicate in E as [-> _].
Qed.

(** A loop [for c < n: S[c] = f(c, S[c])] keeps the length of [S] and
    touches each of its first [n] entries once. *)
Lemma update_loop_length (f : nat -> F -> F) n (sc : list F) :
  length (foldl (fun S c => <[c := f c (at1 S c)]> S) sc (seq 0 n))
  = length sc.
Proof.
  induction n as [|n IH]; [done|].
  by rewrite seq_S, foldl_snoc, length_insert.
Qed.

Lemma update_loop_at1 (f : nat -> F -> F) n (sc : list F) c :
  at1 (foldl (fun S c => <[c := f c (at1 S c)]> S) sc (seq 0 n)) c
  = if decide (c < n ∧ c < length sc) then f c (at1 sc c) else at1 sc c.
Proof.
  induction n as [|n IH].
  - destruct (decide (c < 0 ∧ c < length sc)) as [[? _]|]; [lia|done].
  - rewrite seq_S, foldl_snoc. simpl. rewrite at1_insert, update_loop_length.
    destruct (decide (n = c ∧ n < length sc)) as [[-> Hlt]|Hne].
    + rewrite IH, decide_False by lia. by rewrite decide_True by lia.
    + rewrite IH.
      destruct (decide (c < n ∧ c < length sc)) as [[? ?]|Hn].
      * by rewrite decide_True by lia.
      * by rewrite decide_False by lia.
Qed.

Lemma weighted_upto_S n buf :
  weighted_upto (S n) buf
  = foldl (fun S c =>
             <[c := fadd (at1 S c)
                         (fmul (at1 fusion_weights n) (at2 buf n c))]> S)
          (weighted_upto n buf) (seq 0 EI_CLASSIFIER_LABEL_COUNT).
Proof. unfold weighted_upto. by rewrite seq_S, foldl_snoc. Qed.

Lemma weighted_upto_length n buf :
  length (weighted_upto n buf) = EI_CLASSIFIER_LABEL_COUNT.
Proof.
  induction n as [|n IH].
  - apply length_replicate.
  - rewrite weighted_upto_S.
    by rewrite (update_loop_length
      (fun c x => fadd x (fmul (at1 fusion_weights n) (at2 buf n c)))).
Qed.

Lemma weighted_score_S n buf c :
  weighted_score (S n) buf c
  = fadd (weighted_score n buf c)
         (fmul (at1 fusion_weights n) (at2 buf n c)).
Proof. unfold weighted_score. by rewrite seq_S, foldl_snoc. Qed.

(** Entry [c] of the accumulator is the running sum of class [c]. *)
Lemma weighted_upto_at1 n buf c :
  c < EI_CLASSIFIER_LABEL_COUNT ->
  at1 (weighted_upto n buf) c = weighted_score n buf c.
Proof.
  intros Hc. induction n as [|n IH].
  - apply at1_replicate.
  - rewrite weighted_upto_S, weighted_score_S.
    rewrite (update_loop_at1
      (fun c x => fadd x (fmul (at1 fusion_weights n) (at2 buf n c)))).
    rewrite weighted_upto_length, decide_True by lia. by rewrite IH.
Qed.

Lemma weighted_sum_at1 buf c :
  c < EI_CLASSIFIER_LABEL_COUNT ->
  at1 (weighted_sum buf) c = weighted_score FUSION_WINDOW buf c.
Proof. apply weighted_upto_at1. Qed.

Lemma weighted_sum_length buf :
  length (weighted_sum buf) = EI_CLASSIFIER_LABEL_COUNT.
Proof. apply weighted_upto_length. Qed.

Lemma fuse_length buf : length (fuse buf) = EI_CLASSIFIER_LABEL_COUNT.
Proof.
  unfold fuse, apply_boost.
  rewrite (update_loop_length (fun c x => fmul x (at1 class_boost c))).
  apply weighted_sum_length.
Qed.

(** The fused score of class [c]: the running sum over the window,
    times the boost of the class. *)
Lemma fuse_at1 buf c :
  c < EI_CLASSIFIER_LABEL_COUNT ->
  at1 (fuse buf) c
  = fmul (weighted_score FUSION_WINDOW buf c) (at1 class_boost c).
Proof.
  intros Hc. unfold fuse, apply_boost.
  rewrite (update_loop_at1 (fun c x => fmul x (at1 class_boost c))).
  rewrite weighted_sum_length, decide_True by lia.
  by rewrite weighted_sum_at1.
Qed.

(** ** The push and the buffer *)

(** C9: a push writes the slot at the cursor and no other.  On globals
    of the declared shape, the row at the cursor becomes the scores of
    the result, every other row is what it was, the number of rows is
    unchanged, the cursor advances by one modulo the window, and the
    flag is raised when the cursor wraps and kept otherwise. *)
Theorem push_writes_one_slot st result :
  well_shaped st ->
  length result = EI_CLASSIFIER_LABEL_COUNT ->
  classification_buffer (fusion_push st result) !! fusion_index st
  = Some (values result)
  ∧ (∀ j, j ≠ fusion_index st ->
          classification_buffer (fusion_push st result) !! j
          = classification_buffer st !! j)
  ∧ length (classification_buffer (fusion_push st result)) = FUSION_WINDOW
  ∧ fusion_index (fusion_push st result)
    = S (fusion_index st) `mod` FUSION_WINDOW
  ∧ fusion_buffer_full (fusion_push st result)
    = (fusion_buffer_full st || (S (fusion_index st) =? FUSION_WINDOW)).
Proof.
  intros Hst Hres. pose proof Hst as (Hlen & Hrows & Hidx).
  split_and!.
  - rewrite fusion_push_buffer_insert by done.
    apply list_lookup_insert_eq. lia.
  - intros j Hj. rewrite fusion_push_buffer.
    by apply store_result_lookup_ne.
  - by rewrite fusion_push_buffer, store_result_length.
  - rewrite fusion_push_index.
    destruct (FUSION_WINDOW <=? S (fusion_index st)) eqn:E.
    + apply Nat.leb_le in E.
      replace (S (fusion_index st)) with FUSION_WINDOW by lia.
      by rewrite Nat.Div0.mod_same.
    + apply Nat.leb_gt in E. by rewrite Nat.mod_small.
  - rewrite fusion_push_full.
    destruct (FUSION_WINDOW <=? S (fusion_index st)) eqn:E.
    + apply Nat.leb_le in E.
      replace (S (fusion_index st) =? FUSION_WINDOW) with true;
        [by destruct (fusion_buffer_full st)|].
      symmetry. apply Nat.eqb_eq. lia.
    + apply Nat.leb_gt in E.
      replace (S (fusion_index st) =? FUSION_WINDOW) with false;
        [by destruct (fusion_buffer_full st)|].
      symmetry. apply Nat.eqb_neq. lia.
Qed.

(** What the report holds: the verdict line, then one line per class
    with the label of the result and the fused score of the class. *)
Lemma fusion_report_lines buf result :
  fusion_report buf result
  = (if knock (fuse buf) then KnockDetected else NoKnockDetected)
      :: map (fun c =>
                FusedValue (match result !! c with
                            | Some e => label e
                            | None => EmptyString
                            end)
                           (fmul (weighted_score FUSION_WINDOW buf c)
                                 (at1 class_boost c)))
             (seq 0 EI_CLASSIFIER_LABEL_COUNT).
Proof.
  unfold fusion_report. f_equal.
  apply map_ext_in. intros c Hc%in_seq. by rewrite fuse_at1 by lia.
Qed.

(** C2: warm-up gating.  After any number of pushes the flag is set
    exactly when at least a window of pushes has been made, and once
    set it stays set through all later pushes.  The cycle that makes
    push number [length results + 1] prints nothing while that number
    is below the window.  From then on every cycle prints a verdict
    line and one line per class; the score of class [c] is the sum of
    [fusion_weights[i] * classification_buffer[i][c]] over all the
    rows of the buffer as the push has left it, times
    [class_boost[c]]; the verdict is the knock line exactly when the
    score of class 1 is above the threshold; and the row at the old
    cursor is the vector just pushed. *)
Theorem warm_up_gating results result later :
  0 < FUSION_WINDOW ->
  (fusion_buffer_full (after_pushes results) = true
   <-> FUSION_WINDOW ≤ length results)
  ∧ (fusion_buffer_full (after_pushes results) = true ->
     fusion_buffer_full (after_pushes (results ++ later)) = true)
  ∧ fst (fusion_cycle (after_pushes results) result)
    = after_pushes (results ++ [result])
  ∧ (S (length results) < FUSION_WINDOW ->
     snd (fusion_cycle (after_pushes results) result) = [])
  ∧ (FUSION_WINDOW ≤ S (length results) ->
     let buf := classification_buffer (after_pushes (results ++ [result])) in
     let score := fun c =>
       fmul (foldl (fun acc i =>
                      fadd acc (fmul (at1 fusion_weights i) (at2 buf i c)))
                   fzero (seq 0 FUSION_WINDOW))
            (at1 class_boost c) in
     ∃ verdict,
       snd (fusion_cycle (after_pushes results) result)
       = verdict
           :: map (fun c =>
                     FusedValue (match result !! c with
                                 | Some e => label e
                                 | None => EmptyString
                                 end)
                                (score c))
                  (seq 0 EI_CLASSIFIER_LABEL_COUNT)
       ∧ (verdict = KnockDetected ∨ verdict = NoKnockDetected)
       ∧ (1 < EI_CLASSIFIER_LABEL_COUNT ->
          (verdict = KnockDetected
           <-> fgtb (score 1) KNOCK_THRESHOLD = true))
       ∧ (Forall (fun result => length result = EI_CLASSIFIER_LABEL_COUNT)
                 (results ++ [result]) ->
          buf !! (length results `mod` FUSION_WINDOW)
          = Some (values result))).
Proof.
  intros HW.
  assert (Hfull : fusion_buffer_full (after_pushes (results ++ [result]))
                  = (FUSION_WINDOW <=? S (length results))).
  { rewrite after_pushes_full, length_app by done. simpl.
    by rewrite Nat.add_1_r. }
  assert (Hout : snd (fusion_cycle (after_pushes results) result)
                 = if FUSION_WINDOW <=? S (length results)
                   then fusion_report
                          (classification_buffer
                             (after_pushes (results ++ [result]))) result
                   else []).
  { unfold fusion_cycle. simpl. by rewrite <- after_pushes_snoc, Hfull. }
  split_and!.
  - rewrite after_pushes_full by done. apply Nat.leb_le.
  - rewrite !after_pushes_full, length_app by done.
    intros Hge%Nat.leb_le. apply Nat.leb_le. lia.
  - unfold fusion_cycle. simpl. by rewrite after_pushes_snoc.
  - intros Hlt. rewrite Hout.
    by replace (FUSION_WINDOW <=? S (length results)) with false
      by (symmetry; apply Nat.leb_gt; lia).
  - intros Hge buf score. rewrite Hout.
    replace (FUSION_WINDOW <=? S (length results)) with true
      by (symmetry; apply Nat.leb_le; lia).
    fold buf. rewrite fusion_report_lines.
    exists (if knock (fuse buf) then KnockDetected else NoKnockDetected).
    split_and!.
    + done.
    + destruct (knock (fuse buf)); auto.
    + intros Hc. unfold knock. rewrite fuse_at1 by done.
      change (fmul (weighted_score FUSION_WINDOW buf 1) (at1 class_boost 1))
        with (score 1).
      by destruct (fgtb (score 1) KNOCK_THRESHOLD).
    + intros Hall.
      apply (after_pushes_slot (results ++ [result]) (length results));
        [done|done|by apply list_lookup_middle|].
      rewrite length_app. simpl. lia.
Qed.

(** C5: after [FUSION_WINDOW + 1] pushes every slot holds the vector of
    one of the pushes after the first, so the first push survives in no
    slot; in particular its vector is not in the buffer unless a later
    push delivered the same scores. *)
Theorem first_push_overwritten results first :
  0 < FUSION_WINDOW ->
  length results = S FUSION_WINDOW ->
  Forall (fun result => length result = EI_CLASSIFIER_LABEL_COUNT) results ->
  results !! 0 = Some first ->
  (∀ j row,
      classification_buffer (after_pushes results) !! j = Some row ->
      ∃ p later, 1 ≤ p ∧ results !! p = Some later ∧ row = values later)
  ∧ ((∀ p later, 1 ≤ p -> results !! p = Some later ->
                 values later ≠ values first) ->
     values first ∉ classification_buffer (after_pushes results)).
Proof.
  intros HW Hlen Hall Hfirst.
  assert (Hslots : ∀ j row,
    classification_buffer (after_pushes results) !! j = Some row ->
    ∃ p later, 1 ≤ p ∧ results !! p = Some later ∧ row = values later).
  { intros j row Hrow.
    pose proof (after_pushes_well_shaped results HW Hall) as (Hbuf & _ & _).
    assert (Hj : j < FUSION_WINDOW).
    { apply lookup_lt_Some in Hrow. lia. }
    destruct (decide (j = 0)) as [->|Hj0].
    - destruct (lookup_lt_is_Some_2 results FUSION_WINDOW) as [later Hl]; [lia|].
      exists FUSION_WINDOW, later. split_and!; [lia|done|].
      pose proof (after_pushes_slot results FUSION_WINDOW later HW Hall Hl
                    ltac:(lia)) as Hs.
      rewrite Nat.Div0.mod_same in Hs. congruence.
    - destruct (lookup_lt_is_Some_2 results j) as [later Hl]; [lia|].
      exists j, later. split_and!; [lia|done|].
      pose proof (after_pushes_slot results j later HW Hall Hl
                    ltac:(lia)) as Hs.
      rewrite Nat.mod_small in Hs by done. congruence. }
  split; [done|].
  intros Hdistinct [j Hj]%list_elem_of_lookup.
  destruct (Hslots j _ Hj) as (p & later & Hp & Hl & Heq).
  by eapply Hdistinct.
Qed.

(** ** The report *)

(** C8: the lines a cycle prints are a function of the buffer it has
    just written (with the constant weights, boosts and threshold) and
    of the labels of its result.  Two cycles that leave equal buffers
    print the same verdict and the same fused values, whatever the
    cursors and whatever came before. *)
Theorem fusion_output_determined st1 st2 result1 result2 :
  classification_buffer (fusion_push st1 result1)
  = classification_buffer (fusion_push st2 result2) ->
  fusion_buffer_full (fusion_push st1 result1) = true ->
  fusion_buffer_full (fusion_push st2 result2) = true ->
  label <$> result1 = label <$> result2 ->
  snd (fusion_cycle st1 result1) = snd (fusion_cycle st2 result2).
Proof.
  intros Hbuf Hf1 Hf2 Hlabels. unfold fusion_cycle. simpl.
  rewrite Hf1, Hf2, Hbuf. unfold fusion_report. f_equal.
  apply map_ext. intros ix. f_equal.
  assert (Hix : (label <$> result1) !! ix = (label <$> result2) !! ix)
    by by rewrite Hlabels.
  rewrite !list_lookup_fmap in Hix.
  destruct (result1 !! ix), (result2 !! ix); simpl in Hix; congruence.
Qed.

(** ** Storage order and arrival order *)

(** Once a window has been pushed, the vector [j] places from the
    oldest of the last [FUSION_WINDOW] sits in slot
    [(n + j) mod FUSION_WINDOW], where [n] is the number of pushes. *)
Lemma after_pushes_history results j :
  0 < FUSION_WINDOW ->
  Forall (fun result => length result = EI_CLASSIFIER_LABEL_COUNT) results ->
  FUSION_WINDOW ≤ length results ->
  j < FUSION_WINDOW ->
  classification_buffer (after_pushes results)
    !! ((length results + j) `mod` FUSION_WINDOW)
  = history_spec (values <$> results) !! j.
Proof.
  intros HW Hall Hge Hj. unfold history_spec.
  rewrite lookup_drop, length_fmap, list_lookup_fmap.
  destruct (lookup_lt_is_Some_2 results (length results - FUSION_WINDOW + j))
    as [result Hres]; [lia|].
  rewrite Hres. simpl.
  rewrite <- (after_pushes_slot results _ result HW Hall Hres) by lia.
  f_equal.
  replace (length results + j)
    with (length results - FUSION_WINDOW + j + 1 * FUSION_WINDOW) by lia.
  by rewrite Nat.Div0.mod_add.
Qed.

(** When the number of pushes is a multiple of the window, storage
    order is arrival order. *)
Lemma after_pushes_aligned results :
  0 < FUSION_WINDOW ->
  Forall (fun result => length result = EI_CLASSIFIER_LABEL_COUNT) results ->
  FUSION_WINDOW ≤ length results ->
  length results `mod` FUSION_WINDOW = 0 ->
  classification_buffer (after_pushes results)
  = history_spec (values <$> results).
Proof.
  intros HW Hall Hge Hmod. apply list_eq. intros j.
  pose proof (after_pushes_well_shaped results HW Hall) as (Hlen & _ & _).
  destruct (decide (j < FUSION_WINDOW)) as [Hj|Hj].
  - rewrite <- after_pushes_history by done. f_equal.
    rewrite <- Nat.Div0.add_mod_idemp_l, Hmod. simpl.
    by rewrite Nat.mod_small.
  - rewrite !lookup_ge_None_2; [done| |lia].
    unfold history_spec. rewrite length_drop, length_fmap. lia.
Qed.

End Sketch.

(** ** Exact scores *)

(** C3: the verdict line is the knock line exactly when the fused
    score of class 1, the knock class, is strictly above the threshold,
    and the no-knock line exactly when it is at most the threshold; a
    score equal to the threshold is no knock.  The target class of the
    sketch is the constant 1 and its threshold a constant; the
    comparison is that of [decide_spec] at class 1. *)
Theorem knock_iff_above_threshold (w c : nat) (weights boosts : list Q)
    (threshold : Q) (buf : list (list Q))
    (result : list (ei_impulse_result_classification_t Q)) (fused : list Q) :
  (knock threshold fused = true <-> (threshold < at1 fused 1)%Q)
  ∧ (knock threshold fused = false <-> (at1 fused 1 <= threshold)%Q)
  ∧ knock threshold fused = decide_spec fused 1 threshold
  ∧ (head (fusion_report w c weights boosts threshold buf result)
     = Some KnockDetected
     <-> (threshold < at1 (fuse w c weights boosts buf) 1)%Q)
  ∧ (head (fusion_report w c weights boosts threshold buf result)
     = Some NoKnockDetected
     <-> (at1 (fuse w c weights boosts buf) 1 <= threshold)%Q).
Proof.
  assert (Hk : ∀ S : list Q,
    (knock threshold S = true <-> (threshold < at1 S 1)%Q)
    ∧ (knock threshold S = false <-> (at1 S 1 <= threshold)%Q)).
  { intros S. unfold knock. simpl.
    destruct (Qlt_le_dec threshold (at1 S 1)) as [Hlt|Hle].
    - split; split; try done. intros Hle. exfalso. lra.
    - split; split; try done. intros Hlt. exfalso. lra. }
  assert (Hhead : head (fusion_report w c weights boosts threshold buf result)
                  = Some (if knock threshold (fuse w c weights boosts buf)
                          then KnockDetected else NoKnockDetected))
    by reflexivity.
  split_and!; try apply Hk; [done| |]; rewrite Hhead;
    destruct (knock threshold (fuse w c weights boosts buf)) eqn:E.
  - split; [intros _; by apply Hk|done].
  - split; [done|]. intros Hlt%Hk. congruence.
  - split; [done|]. intros Hle%Hk. congruence.
  - split; [intros _; by apply Hk|done].
Qed.

(** ** The boost *)


(** Without rounding the product is strictly monotone: over the exact
    rationals, a larger boost on a positive weighted sum gives a
    strictly larger fused score. *)
Lemma boost_monotone_exact (w c : nat) (weights boosts : list Q)
    (buf : list (list Q)) (cls : nat) (more : Q) :
  cls < c ->
  cls < length boosts ->
  (0 < at1 (weighted_sum w c weights buf) cls)%Q ->
  (at1 boosts cls < more)%Q ->
  (at1 (fuse w c weights boosts buf) cls
   < at1 (fuse w c weights (<[cls := more]> boosts) buf) cls)%Q.
Proof.
  intros Hc Hlen Hpos Hlt. rewrite weighted_sum_at1 in Hpos by done.
  rewrite !fuse_at1 by done. rewrite at1_insert, decide_True by done.
  simpl. by apply Qmult_lt_l.
Qed.


(** With weights that are not negative and scores between 0 and 1,
    the running sum of a class stays between 0 and the sum of the
    weights used so far. *)
Lemma weighted_score_bounds (weights : list Q) (buf : list (list Q))
    (cls n : nat) :
  (∀ i, i < n -> (0 <= at1 weights i)%Q) ->
  (∀ i, i < n -> (0 <= at2 buf i cls <= 1)%Q) ->
  (0 <= weighted_score weights n buf cls <= total_weight n weights)%Q.
Proof.
  induction n as [|n IH]; intros Hw Hb.
  - unfold weighted_score, total_weight. simpl. lra.
  - rewrite weighted_score_S. unfold total_weight.
    rewrite seq_S, foldl_snoc. fold (total_weight n weights). simpl.
    change (nth n weights 0%Q) with (at1 weights n).
    pose proof (Hw n ltac:(lia)) as Hwn.
    pose proof (Hb n ltac:(lia)) as Hbn.
    destruct IH as [IH0 IH1]; [intros; apply Hw; lia|intros; apply Hb; lia|].
    nra.
Qed.

(** The same for the fused score: with weights that sum to 1 and a
    boost that is not negative, it lies between 0 and the boost. *)
Lemma fuse_bounds (w c : nat) (weights boosts : list Q)
    (buf : list (list Q)) (cls : nat) :
  cls < c ->
  (∀ i, i < w -> (0 <= at1 weights i)%Q) ->
  (total_weight w weights == 1)%Q ->
  (0 <= at1 boosts cls)%Q ->
  (∀ i, i < w -> (0 <= at2 buf i cls <= 1)%Q) ->
  (0 <= at1 (fuse w c weights boosts buf) cls <= at1 boosts cls)%Q.
Proof.
  intros Hc Hw Htot Hboost Hb. rewrite fuse_at1 by done. simpl.
  pose proof (weighted_score_bounds weights buf cls w Hw Hb) as [H0 H1].
  rewrite Htot in H1.
  nra.
Qed.

(** ** The sketch as configured *)

Abbreviation nano33_fuse :=
  (fuse Nano33.FUSION_WINDOW Nano33.EI_CLASSIFIER_LABEL_COUNT
        Nano33.fusion_weights Nano33.class_boost).
Abbreviation nano33_fuse_spec :=
  (fuse_spec Nano33.FUSION_WINDOW Nano33.EI_CLASSIFIER_LABEL_COUNT
             Nano33.fusion_weights Nano33.class_boost).
Abbreviation nano33_cycle :=
  (fusion_cycle Nano33.FUSION_WINDOW Nano33.EI_CLASSIFIER_LABEL_COUNT
                Nano33.fusion_weights Nano33.class_boost
                Nano33.KNOCK_THRESHOLD).
Abbreviation nano33_after :=
  (after_pushes (F := Q) Nano33.FUSION_WINDOW Nano33.EI_CLASSIFIER_LABEL_COUNT).
Abbreviation nano33_push :=
  (fusion_push (F := Q) Nano33.FUSION_WINDOW Nano33.EI_CLASSIFIER_LABEL_COUNT).

Lemma nano33_weights_total :
  (total_weight Nano33.FUSION_WINDOW Nano33.fusion_weights == 1)%Q.
Proof. by vm_compute. Qed.

Lemma nano33_weights_nonneg i :
  i < Nano33.FUSION_WINDOW -> (0 <= at1 Nano33.fusion_weights i)%Q.
Proof.
  intros Hi. do 5 (destruct i as [|i]; [by vm_compute|]).
  unfold Nano33.FUSION_WINDOW in Hi. lia.
Qed.

(** C10: with the weights of the sketch, which are not negative and
    sum to 1, and scores between 0 and 1 in every slot, each fused
    score lies between 0 and the boost of its class, for any boosts
    that are not negative; with the boosts of the sketch the Engine
    and Neither scores are at most 1 and the Knock score at most 2. *)
Theorem fused_scores_bounded (boosts : list Q) (buf : list (list Q)) :
  (∀ i c, i < Nano33.FUSION_WINDOW -> c < Nano33.EI_CLASSIFIER_LABEL_COUNT ->
          (0 <= at2 buf i c <= 1)%Q) ->
  (∀ c, c < Nano33.EI_CLASSIFIER_LABEL_COUNT -> (0 <= at1 boosts c)%Q) ->
  (∀ c, c < Nano33.EI_CLASSIFIER_LABEL_COUNT ->
        (0 <= at1 (fuse Nano33.FUSION_WINDOW Nano33.EI_CLASSIFIER_LABEL_COUNT
                        Nano33.fusion_weights boosts buf) c
         <= at1 boosts c)%Q)
  ∧ (0 <= at1 (nano33_fuse buf) 0 <= 1)%Q
  ∧ (0 <= at1 (nano33_fuse buf) 1 <= 2)%Q
  ∧ (0 <= at1 (nano33_fuse buf) 2 <= 1)%Q.
Proof.
  intros Hbuf Hboosts.
  assert (Hany : ∀ (bs : list Q) c,
    c < Nano33.EI_CLASSIFIER_LABEL_COUNT -> (0 <= at1 bs c)%Q ->
    (0 <= at1 (fuse Nano33.FUSION_WINDOW Nano33.EI_CLASSIFIER_LABEL_COUNT
                    Nano33.fusion_weights bs buf) c <= at1 bs c)%Q).
  { intros bs c Hc Hb. apply fuse_bounds; auto.
    - apply nano33_weights_nonneg.
    - apply nano33_weights_total. }
  assert (Hb0 : (at1 Nano33.class_boost 0 == 1)%Q) by by vm_compute.
  assert (Hb1 : (at1 Nano33.class_boost 1 == 2)%Q) by by vm_compute.
  assert (Hb2 : (at1 Nano33.class_boost 2 == 1)%Q) by by vm_compute.
  pose proof (Hany Nano33.class_boost 0 ltac:(vm_compute; lia)
                ltac:(by vm_compute)).
  pose proof (Hany Nano33.class_boost 1 ltac:(vm_compute; lia)
                ltac:(by vm_compute)).
  pose proof (Hany Nano33.class_boost 2 ltac:(vm_compute; lia)
                ltac:(by vm_compute)).
  refine (conj _ (conj _ (conj _ _))); [|lra..].
  intros c Hc. apply Hany; auto.
Qed.

(** C4: scenario A.  Four pushes with all scores 0 and a fifth with
    Knock score 0.30: the fifth cycle prints the no-knock line and the
    fused scores 0, 0.21 = 0.35 * 0.30 * 2.0 and 0. *)
Theorem scenario_A :
  let quiet := Nano33.classification 0 0 0 in
  let fifth := Nano33.classification 0 0.30 0 in
  let cycle := nano33_cycle (nano33_after (replicate 4 quiet)) fifth in
  fusion_buffer_full (fst cycle) = true
  ∧ ∃ engine knock_score neither,
      snd cycle = [ NoKnockDetected;
                    FusedValue "Engine" engine;
                    FusedValue "Knock" knock_score;
                    FusedValue "Neither" neither ]
      ∧ (engine == 0)%Q
      ∧ (knock_score == 0.21)%Q
      ∧ (knock_score == 0.35 * 0.30 * 2.0)%Q
      ∧ (neither == 0)%Q.
Proof.
  split; [by vm_compute|].
  eexists _, _, _. split; [by vm_compute|].
  by vm_compute.
Qed.

(** C1: the weighted sum reads the rows in storage order, not in
    arrival order.  After five pushes with all scores 0 and a sixth
    with Knock score 1, the sixth vector sits in slot 0 and is weighted
    with [fusion_weights[0] = 0.05]: the cycle prints the no-knock line
    and the fused Knock score is 0.1.  The formula of the specification
    over the last five vectors, oldest first, weights it with 0.35 and
    gives 0.7, a knock. *)
Theorem weights_follow_slots_not_arrival :
  let quiet := Nano33.classification 0 0 0 in
  let latest := Nano33.classification 0 1 0 in
  let cycle := nano33_cycle (nano33_after (replicate 5 quiet)) latest in
  let history :=
    history_spec Nano33.FUSION_WINDOW
                 (values <$> (replicate 5 quiet ++ [latest])) in
  classification_buffer (fst cycle) !! 0 = Some (values latest)
  ∧ at1 Nano33.fusion_weights 0 = 0.05%Q
  ∧ head (snd cycle) = Some NoKnockDetected
  ∧ (at1 (nano33_fuse (classification_buffer (fst cycle))) 1 == 0.1)%Q
  ∧ history !! 4 = Some (values latest)
  ∧ (at1 (nano33_fuse_spec history) 1 == 0.7)%Q
  ∧ decide_spec (nano33_fuse_spec history) 1 Nano33.KNOCK_THRESHOLD = true.
Proof. by vm_compute. Qed.

(** ** Instances *)

Lemma push_writes_one_slot_witness :
  let st := nano33_after [] in
  let result := Nano33.classification 0 0.30 0 in
  classification_buffer (nano33_push st result) !! fusion_index st
  = Some (values result)
  ∧ (∀ j, j ≠ fusion_index st ->
          classification_buffer (nano33_push st result) !! j
          = classification_buffer st !! j)
  ∧ length (classification_buffer (nano33_push st result))
    = Nano33.FUSION_WINDOW
  ∧ fusion_index (nano33_push st result)
    = S (fusion_index st) `mod` Nano33.FUSION_WINDOW
  ∧ fusion_buffer_full (nano33_push st result)
    = (fusion_buffer_full st || (S (fusion_index st) =? Nano33.FUSION_WINDOW)).
Proof.
  apply (push_writes_one_slot Nano33.FUSION_WINDOW
           Nano33.EI_CLASSIFIER_LABEL_COUNT).
  - apply initial_state_well_shaped. vm_compute. lia.
  - reflexivity.
Defined.

Lemma warm_up_gating_witness :
  let results := replicate 4 (Nano33.classification 0 0 0) in
  let result := Nano33.classification 0 0.30 0 in
  let later := [Nano33.classification 0 0 0] in
  (fusion_buffer_full (nano33_after results) = true
   <-> Nano33.FUSION_WINDOW ≤ length results)
  ∧ (fusion_buffer_full (nano33_after results) = true ->
     fusion_buffer_full (nano33_after (results ++ later)) = true)
  ∧ fst (nano33_cycle (nano33_after results) result)
    = nano33_after (results ++ [result])
  ∧ (S (length results) < Nano33.FUSION_WINDOW ->
     snd (nano33_cycle (nano33_after results) result) = [])
  ∧ (Nano33.FUSION_WINDOW ≤ S (length results) ->
     let buf := classification_buffer (nano33_after (results ++ [result])) in
     let score := fun c =>
       fmul (foldl (fun acc i =>
                      fadd acc (fmul (at1 Nano33.fusion_weights i)
                                     (at2 buf i c)))
                   fzero (seq 0 Nano33.FUSION_WINDOW))
            (at1 Nano33.class_boost c) in
     ∃ verdict,
       snd (nano33_cycle (nano33_after results) result)
       = verdict
           :: map (fun c =>
                     FusedValue (match result !! c with
                                 | Some e => label e
                                 | None => EmptyString
                                 end)
                                (score c))
                  (seq 0 Nano33.EI_CLASSIFIER_LABEL_COUNT)
       ∧ (verdict = KnockDetected ∨ verdict = NoKnockDetected)
       ∧ (1 < Nano33.EI_CLASSIFIER_LABEL_COUNT ->
          (verdict = KnockDetected
           <-> fgtb (score 1) Nano33.KNOCK_THRESHOLD = true))
       ∧ (Forall (fun result =>
                    length result = Nano33.EI_CLASSIFIER_LABEL_COUNT)
                 (results ++ [result]) ->
          buf !! (length results `mod` Nano33.FUSION_WINDOW)
          = Some (values result))).
Proof.
  apply (warm_up_gating Nano33.FUSION_WINDOW Nano33.EI_CLASSIFIER_LABEL_COUNT).
  vm_compute. lia.
Defined.

Lemma first_push_overwritten_witness :
  let first := Nano33.classification 1 0 0 in
  let results := first :: replicate 5 (Nano33.classification 0 0 0) in
  (∀ j row,
      classification_buffer (nano33_after results) !! j = Some row ->
      ∃ p later, 1 ≤ p ∧ results !! p = Some later ∧ row = values later)
  ∧ ((∀ p later, 1 ≤ p -> results !! p = Some later ->
                 values later ≠ values first) ->
     values first ∉ classification_buffer (nano33_after results)).
Proof.
  apply (first_push_overwritten Nano33.FUSION_WINDOW
           Nano33.EI_CLASSIFIER_LABEL_COUNT).
  - vm_compute. lia.
  - reflexivity.
  - repeat constructor.
  - reflexivity.
Defined.

Lemma fusion_output_determined_witness :
  let v := Nano33.classification 0 0.2 0 in
  snd (nano33_cycle (nano33_after (replicate 5 v)) v)
  = snd (nano33_cycle (nano33_after (replicate 6 v)) v).
Proof.
  apply (fusion_output_determined Nano33.FUSION_WINDOW
           Nano33.EI_CLASSIFIER_LABEL_COUNT); reflexivity.
Defined.


Lemma fused_scores_bounded_witness :
  let buf := replicate 5 [1; 1; 1]%Q in
  (∀ c, c < Nano33.EI_CLASSIFIER_LABEL_COUNT ->
        (0 <= at1 (nano33_fuse buf) c <= at1 Nano33.class_boost c)%Q)
  ∧ (0 <= at1 (nano33_fuse buf) 0 <= 1)%Q
  ∧ (0 <= at1 (nano33_fuse buf) 1 <= 2)%Q
  ∧ (0 <= at1 (nano33_fuse buf) 2 <= 1)%Q.
Proof.
  apply (fused_scores_bounded Nano33.class_boost).
  - intros i c Hi Hc.
    do 5 (destruct i as [|i];
          [do 3 (destruct c as [|c]; [by vm_compute|]);
           vm_compute in Hc; lia|]).
    vm_compute in Hi. lia.
  - intros c Hc.
    do 3 (destruct c as [|c]; [by vm_compute|]).
    vm_compute in Hc. lia.
Defined.

(** * The recording of a window *)

(** The values of [int16_t]. *)
Definition int16_range (x : Z) : Prop := (- 2 ^ 15 <= x < 2 ^ 15)%Z.

(** One iteration of the recording loop as it shows among the reports:
    the reading of the timeout check and the reading of the
    microsecond clock and, when the sample is due, the converter's
    value and the reading of the progress report. *)
Inductive iteration :=
| Waiting (now us : Z)
| Sampling (now us a current_time : Z).

Definition iteration_reports (it : iteration) : list Z :=
  match it with
  | Waiting now us => [now; us]
  | Sampling now us a current_time => [now; us; a; current_time]
  end.

Definition trace_reports (its : list iteration) : list Z :=
  concat (map iteration_reports its).

(** The samples the iterations store. *)
Definition sampled (its : list iteration) : list Z :=
  omap (fun it => match it with
                  | Waiting _ _ => None
                  | Sampling _ _ a _ => Some (to_int16 a)
                  end) its.

(** Iterations that follow the schedule: every timeout check finds the
    millisecond clock at most [timeout_ms] after the start, in 32
    bits; an iteration waits when the microsecond clock reads less
    than the time of the next sample and takes the sample otherwise,
    which moves that time on by [SAMPLE_INTERVAL], in 32 bits. *)
Fixpoint on_schedule (start_time next_sample_time : Z) (its : list iteration)
    : Prop :=
  match its with
  | [] => True
  | Waiting now us :: its' =>
    (u32 (u32 now - start_time) <= timeout_ms)%Z
    ∧ (u32 us < next_sample_time)%Z
    ∧ on_schedule start_time next_sample_time its'
  | Sampling now us _ _ :: its' =>
    (u32 (u32 now - start_time) <= timeout_ms)%Z
    ∧ (next_sample_time <= u32 us)%Z
    ∧ on_schedule start_time (u32 (next_sample_time + SAMPLE_INTERVAL)) its'
  end.

(** An iteration of a burst before the microsecond counter wraps: a
    sample is taken, and the clock reads no less than at the start. *)
Definition burst_iteration (start us0 : Z) (it : iteration) : Prop :=
  match it with
  | Waiting _ _ => False
  | Sampling now us _ _ =>
    (u32 (u32 now - u32 start) <= timeout_ms)%Z ∧ (u32 us0 <= u32 us)%Z
  end.

(** One more unit of fuel changes nothing once the fuel exceeds the
    number of pending reports: the recording has no result exactly
    when the reports run out. *)
Lemma record_loop_fuel fuel n start next last samples rs :
  length rs < fuel ->
  record_loop (S fuel) n start next last samples rs
  = record_loop fuel n start next last samples rs.
Proof.
  revert next last samples rs.
  induction fuel as [|fuel IH]; intros next last samples rs Hlen; [lia|].
  change (record_loop (S (S fuel)) n start next last samples rs)
    with ((if (Z.of_nat (length samples) <? n)%Z then
             now <- millis ;;
             if (timeout_ms <? u32 (now - start))%Z then
               hw_ret (false, samples)
             else
               us <- micros ;;
               if (next <=? us)%Z then
                 a <- analogRead ;;
                 current_time <- millis ;;
                 record_loop (S fuel) n start
                   (u32 (next + SAMPLE_INTERVAL))
                   (if (1000 <? u32 (current_time - last))%Z
                    then current_time else last)
                   (samples ++ [to_int16 a])
               else record_loop (S fuel) n start next last samples
           else _ <- millis ;; hw_ret (true, samples)) rs).
  change (record_loop (S fuel) n start next last samples rs)
    with ((if (Z.of_nat (length samples) <? n)%Z then
             now <- millis ;;
             if (timeout_ms <? u32 (now - start))%Z then
               hw_ret (false, samples)
             else
               us <- micros ;;
               if (next <=? us)%Z then
                 a <- analogRead ;;
                 current_time <- millis ;;
                 record_loop fuel n start
                   (u32 (next + SAMPLE_INTERVAL))
                   (if (1000 <? u32 (current_time - last))%Z
                    then current_time else last)
                   (samples ++ [to_int16 a])
               else record_loop fuel n start next last samples
           else _ <- millis ;; hw_ret (true, samples)) rs).
  destruct (Z.of_nat (length samples) <? n)%Z; [|done].
  destruct rs as [|now rs]; [done|].
  cbv beta iota delta [hw_bind millis micros analogRead hw_read hw_ret].
  destruct (timeout_ms <? u32 (u32 now - start))%Z; [done|].
  destruct rs as [|us rs]; [done|].
  cbv beta iota.
  destruct (next <=? u32 us)%Z.
  - destruct rs as [|a rs]; [done|]. destruct rs as [|cur rs]; [done|].
    apply IH. simpl in Hlen. lia.
  - apply IH. simpl in Hlen. lia.
Qed.

(** One iteration of the recording loop, by cases on the reports. *)
Lemma record_loop_S fuel n start next last samples rs :
  record_loop (S fuel) n start next last samples rs
  = if (Z.of_nat (length samples) <? n)%Z then
      match rs with
      | [] => None
      | now :: rs1 =>
        if (timeout_ms <? u32 (u32 now - start))%Z
        then Some ((false, samples), rs1)
        else
          match rs1 with
          | [] => None
          | us :: rs2 =>
            if (next <=? u32 us)%Z then
              match rs2 with
              | a :: cur :: rs4 =>
                record_loop fuel n start (u32 (next + SAMPLE_INTERVAL))
                  (if (1000 <? u32 (u32 cur - last))%Z
                   then u32 cur else last)
                  (samples ++ [to_int16 a]) rs4
              | _ => None
              end
            else record_loop fuel n start next last samples rs2
          end
      end
    else
      match rs with
      | [] => None
      | _ :: rs1 => Some ((true, samples), rs1)
      end.
Proof.
  simpl. destruct (Z.of_nat (length samples) <? n)%Z.
  - destruct rs as [|now rs1]; [done|].
    cbv beta iota delta [hw_bind millis micros analogRead hw_read hw_ret].
    destruct (timeout_ms <? u32 (u32 now - start))%Z; [done|].
    destruct rs1 as [|us rs2]; [done|]. cbv beta iota.
    destruct (next <=? u32 us)%Z; [|done].
    destruct rs2 as [|a [|cur rs4]]; done.
  - by destruct rs.
Qed.

Lemma to_int16_range x : int16_range (to_int16 x).
Proof.
  unfold int16_range, to_int16.
  pose proof (Z.mod_pos_bound (x + 2 ^ 15) (2 ^ 16) ltac:(lia)). lia.
Qed.

Lemma to_int16_id x : int16_range x -> to_int16 x = x.
Proof.
  unfold int16_range, to_int16. intros Hx.
  rewrite Z.mod_small by lia. lia.
Qed.

Lemma u32_sub a b : u32 (u32 a - u32 b) = u32 (a - b).
Proof. unfold u32. by rewrite <- Zminus_mod. Qed.

Lemma u32_small x : (0 <= x < 2 ^ 32)%Z -> u32 x = x.
Proof. intros. unfold u32. by rewrite Z.mod_small. Qed.

(** What the loop keeps true of the samples. *)
Lemma record_loop_samples fuel n start next last samples rs b samples' rs' :
  record_loop fuel n start next last samples rs = Some ((b, samples'), rs') ->
  Forall int16_range samples ->
  Forall int16_range samples'
  ∧ (if b then (Z.of_nat (length samples) <= n)%Z ->
               Z.of_nat (length samples') = n
     else (Z.of_nat (length samples') < n)%Z).
Proof.
  revert next last samples rs.
  induction fuel as [|fuel IH]; intros next last samples rs Hrec Hall;
    [done|].
  rewrite record_loop_S in Hrec.
  destruct (Z.of_nat (length samples) <? n)%Z eqn:En.
  - apply Z.ltb_lt in En.
    destruct rs as [|now rs1]; [done|].
    destruct (timeout_ms <? u32 (u32 now - start))%Z.
    { injection Hrec as <- <- _. done. }
    destruct rs1 as [|us rs2]; [done|].
    destruct (next <=? u32 us)%Z.
    + destruct rs2 as [|a [|cur rs4]]; [done..|].
      apply IH in Hrec as [Hall' Hb].
      * split; [done|]. destruct b; [|done].
        intros _. apply Hb. rewrite length_app. simpl. lia.
      * apply Forall_app. split; [done|].
        apply Forall_singleton, to_int16_range.
    + by apply IH in Hrec.
  - apply Z.ltb_ge in En.
    destruct rs as [|now rs1]; [done|].
    injection Hrec as <- <- _. split; [done|lia].
Qed.

(** X1: a recording that returns [true] has taken exactly the samples
    of the window, each a value of [int16_t]. *)
Theorem record_true_complete n reports samples rest :
  (0 <= n)%Z ->
  microphone_inference_record n reports = Some ((true, samples), rest) ->
  Z.of_nat (length samples) = n ∧ Forall int16_range samples.
Proof.
  intros Hn. unfold microphone_inference_record.
  destruct reports as [|start [|us0 rs]]; [done..|].
  cbv beta iota delta [hw_bind millis micros hw_read hw_ret].
  intros [Hall Hlen]%record_loop_samples; [|done].
  split; [|done]. apply Hlen. simpl. lia.
Qed.

(** X3: the empty window.  With no sample to take the recording reads
    the clocks three times and returns [true] with no sample. *)
Theorem record_empty_window n start us0 t_end rest :
  (n <= 0)%Z ->
  microphone_inference_record n (start :: us0 :: t_end :: rest)
  = Some ((true, []), rest).
Proof.
  intros Hn. unfold microphone_inference_record.
  cbv beta iota delta [hw_bind millis micros hw_read hw_ret].
  rewrite record_loop_S. simpl length.
  destruct (Z.ltb_spec (Z.of_nat 0) n); [lia|done].
Qed.

(** The schedule: the loop takes sample number [j] (from 0) only when
    the microsecond clock has reached [us0 + 125 * j]. *)
Lemma record_loop_schedule fuel n start next last samples rs b samples' rs'
    (us0 : Z) (k : nat) :
  record_loop fuel n start next last samples rs = Some ((b, samples'), rs') ->
  next = (us0 + SAMPLE_INTERVAL * Z.of_nat (length samples))%Z ->
  length samples ≤ k ->
  (0 <= us0)%Z ->
  (us0 + SAMPLE_INTERVAL * Z.of_nat k < 2 ^ 32)%Z ->
  (∀ r, r ∈ rs -> (u32 r < us0 + SAMPLE_INTERVAL * Z.of_nat k)%Z) ->
  length samples' ≤ k.
Proof.
  unfold SAMPLE_INTERVAL. revert next last samples rs.
  induction fuel as [|fuel IH];
    intros next last samples rs Hrec Hnext Hlen Hus0 Hk Hrs; [done|].
  rewrite record_loop_S in Hrec.
  destruct (Z.of_nat (length samples) <? n)%Z.
  - destruct rs as [|now rs1]; [done|].
    destruct (timeout_ms <? u32 (u32 now - start))%Z.
    { by injection Hrec as _ <- _. }
    destruct rs1 as [|us rs2]; [done|].
    destruct (next <=? u32 us)%Z eqn:Eus.
    + destruct rs2 as [|a [|cur rs4]]; [done..|].
      apply Z.leb_le in Eus.
      pose proof (Hrs us ltac:(by right; left)) as Hlate.
      assert (length samples < k) by nia.
      apply IH in Hrec; [done| | | | |].
      * rewrite length_app. simpl. unfold SAMPLE_INTERVAL.
        rewrite u32_small; nia.
      * rewrite length_app. simpl. lia.
      * done.
      * done.
      * intros r Hr. apply Hrs. by do 4 right.
    + apply IH in Hrec; try done. intros r Hr. apply Hrs. by do 2 right.
  - destruct rs as [|now rs1]; [done|]. by injection Hrec as _ <- _.
Qed.

(** X4: the recording never runs ahead of its schedule of one sample
    per [SAMPLE_INTERVAL] microseconds: while no report has reached
    [k] intervals after the first microsecond reading, at most [k]
    samples are taken. *)
Theorem record_never_ahead n start us0 rs (k : nat) b samples rest :
  (u32 us0 + SAMPLE_INTERVAL * Z.of_nat k < 2 ^ 32)%Z ->
  (∀ r, r ∈ rs -> (u32 r < u32 us0 + SAMPLE_INTERVAL * Z.of_nat k)%Z) ->
  microphone_inference_record n (start :: us0 :: rs)
  = Some ((b, samples), rest) ->
  length samples ≤ k.
Proof.
  intros Hk Hrs. unfold microphone_inference_record.
  cbv beta iota delta [hw_bind millis micros hw_read hw_ret].
  intros Hrec.
  eapply (record_loop_schedule _ _ _ _ _ _ _ _ _ _ (u32 us0) k) in Hrec;
    try done.
  - simpl. unfold SAMPLE_INTERVAL. lia.
  - simpl. lia.
  - unfold u32. apply Z.mod_pos_bound. lia.
Qed.

Lemma u32_add_l a b : u32 (u32 a + b) = u32 (a + b).
Proof. unfold u32. by rewrite Zplus_mod_idemp_l. Qed.

Lemma u32_range x : (0 <= u32 x < 2 ^ 32)%Z.
Proof. unfold u32. apply Z.mod_pos_bound. lia. Qed.

Lemma trace_reports_cons it its :
  trace_reports (it :: its) = iteration_reports it ++ trace_reports its.
Proof. done. Qed.

Lemma trace_reports_app its its' :
  trace_reports (its ++ its') = trace_reports its ++ trace_reports its'.
Proof. unfold trace_reports. by rewrite map_app, concat_app. Qed.

Lemma sampled_app its its' : sampled (its ++ its') = sampled its ++ sampled its'.
Proof. apply omap_app. Qed.

Lemma sampled_range its : Forall int16_range (sampled its).
Proof.
  induction its as [|[now us|now us a current_time] its IH]; simpl.
  - constructor.
  - done.
  - constructor; [apply to_int16_range|done].
Qed.


(** Every result of the loop comes from iterations on schedule: the
    reports it has consumed are those of the iterations and one more
    reading of the millisecond clock, which is late when the result is
    [false]. *)
Lemma record_loop_trace fuel n start next last samples rs b samples' rs' :
  record_loop fuel n start next last samples rs = Some ((b, samples'), rs') ->
  ∃ its final,
    rs = trace_reports its ++ final :: rs'
    ∧ on_schedule start next its
    ∧ samples' = samples ++ sampled its
    ∧ (if b then (n <= Z.of_nat (length samples'))%Z
       else (Z.of_nat (length samples') < n)%Z
            ∧ (timeout_ms < u32 (u32 final - start))%Z).
Proof.
  revert next last samples rs.
  induction fuel as [|fuel IH]; intros next last samples rs Hrec; [done|].
  rewrite record_loop_S in Hrec.
  destruct (Z.of_nat (length samples) <? n)%Z eqn:En.
  - apply Z.ltb_lt in En.
    destruct rs as [|now rs1]; [done|].
    destruct (timeout_ms <? u32 (u32 now - start))%Z eqn:Et.
    { injection Hrec as <- <- <-. exists [], now.
      apply Z.ltb_lt in Et. by rewrite app_nil_r. }
    apply Z.ltb_ge in Et.
    destruct rs1 as [|us rs2]; [done|].
    destruct (next <=? u32 us)%Z eqn:Eus.
    + apply Z.leb_le in Eus.
      destruct rs2 as [|a [|cur rs4]]; [done..|].
      apply IH in Hrec as (its & final & -> & Hsch & -> & Hb).
      exists (Sampling now us a cur :: its), final.
      split_and!; [done|done|by rewrite <- app_assoc|done].
    + apply Z.leb_gt in Eus.
      apply IH in Hrec as (its & final & -> & Hsch & -> & Hb).
      exists (Waiting now us :: its), final. by split_and!.
  - apply Z.ltb_ge in En.
    destruct rs as [|now rs1]; [done|].
    injection Hrec as <- <- <-. exists [], now.
    by rewrite app_nil_r.
Qed.

(** Iterations on schedule that leave the window incomplete, then a
    late reading: the loop returns [false]. *)
Lemma record_loop_times_out fuel n start next last samples its late rest :
  length its < fuel ->
  on_schedule start next its ->
  (Z.of_nat (length (samples ++ sampled its)) < n)%Z ->
  (timeout_ms < u32 (u32 late - start))%Z ->
  record_loop fuel n start next last samples (trace_reports its ++ late :: rest)
  = Some ((false, samples ++ sampled its), rest).
Proof.
  revert fuel next last samples.
  induction its as [|it its IH]; intros fuel next last samples Hfuel Hsch Hn Hl;
    (destruct fuel as [|fuel]; [simpl in Hfuel; lia|]);
    rewrite record_loop_S; rewrite length_app in Hn.
  - simpl in Hn. rewrite Nat.add_0_r in Hn.
    apply Z.ltb_lt in Hn as ->. simpl.
    apply Z.ltb_lt in Hl as ->. by rewrite app_nil_r.
  - replace (Z.of_nat (length samples) <? n)%Z with true
      by (symmetry; apply Z.ltb_lt; lia).
    destruct it as [now us|now us a cur]; simpl in Hsch;
      destruct Hsch as (Ht & Hus & Hsch);
      rewrite trace_reports_cons; simpl;
      (replace (timeout_ms <? u32 (u32 now - start))%Z with false
         by (symmetry; by apply Z.ltb_ge)).
    + replace (next <=? u32 us)%Z with false
        by (symmetry; by apply Z.leb_gt).
      apply IH; [simpl in Hfuel; lia|done| |done].
      rewrite length_app. simpl in Hn. lia.
    + replace (next <=? u32 us)%Z with true
        by (symmetry; by apply Z.leb_le).
      rewrite IH; [by rewrite <- app_assoc|simpl in Hfuel; lia|done| |done].
      rewrite !length_app. simpl in *. lia.
Qed.

(** Iterations on schedule of which the last one takes the last
    sample of the window, then the reading of the completion message:
    the loop returns [true]. *)
Lemma record_loop_completes fuel n start next last samples its
    now us a current_time t_end rest :
  S (length its) < fuel ->
  on_schedule start next (its ++ [Sampling now us a current_time]) ->
  (Z.of_nat (length samples + length (sampled its)) + 1 = n)%Z ->
  record_loop fuel n start next last samples
    (trace_reports (its ++ [Sampling now us a current_time]) ++ t_end :: rest)
  = Some ((true, samples ++ sampled its ++ [to_int16 a]), rest).
Proof.
  revert fuel next last samples.
  induction its as [|it its IH]; intros fuel next last samples Hfuel Hsch Hn;
    (destruct fuel as [|fuel]; [simpl in Hfuel; lia|]);
    rewrite record_loop_S;
    (replace (Z.of_nat (length samples) <? n)%Z with true
       by (symmetry; apply Z.ltb_lt; lia)).
  - destruct Hsch as (Ht & Hus & _). simpl.
    replace (timeout_ms <? u32 (u32 now - start))%Z with false
      by (symmetry; by apply Z.ltb_ge).
    replace (next <=? u32 us)%Z with true by (symmetry; by apply Z.leb_le).
    destruct fuel as [|fuel]; [simpl in Hfuel; lia|].
    rewrite record_loop_S, length_app. simpl in *.
    by replace (Z.of_nat (length samples + 1) <? n)%Z with false
      by (symmetry; apply Z.ltb_ge; lia).
  - destruct it as [now' us'|now' us' a' cur']; simpl in Hsch;
      destruct Hsch as (Ht & Hus & Hsch);
      rewrite <- app_comm_cons, trace_reports_cons; simpl;
      (replace (timeout_ms <? u32 (u32 now' - start))%Z with false
         by (symmetry; by apply Z.ltb_ge)).
    + replace (next <=? u32 us')%Z with false
        by (symmetry; by apply Z.leb_gt).
      apply IH; [simpl in Hfuel; lia|done|simpl in Hn; lia].
    + replace (next <=? u32 us')%Z with true
        by (symmetry; by apply Z.leb_le).
      rewrite IH; [by rewrite <- app_assoc|simpl in Hfuel; lia|done|].
      rewrite length_app. simpl in *. lia.
Qed.

Lemma trace_reports_length its : length its ≤ length (trace_reports its).
Proof.
  induction its as [|it its IH]; [done|].
  rewrite trace_reports_cons, length_app. destruct it; simpl; lia.
Qed.

Lemma record_unfold n start us0 rs :
  microphone_inference_record n (start :: us0 :: rs)
  = record_loop (S (S (S (length rs)))) n (u32 start) (u32 us0) (u32 start)
      [] rs.
Proof. done. Qed.

(** X2: the recording returns [false] exactly on the timeout.  The
    reports it has consumed are the two readings of the start,
    iterations on schedule, in each of which the timeout check has
    passed, and one more reading of the millisecond clock: that one is
    more than [timeout_ms] after the first reading, in 32 bits.  The
    window is incomplete, and the samples returned are the converter's
    values of the sampling iterations, cast to [int16_t]. *)
Theorem record_false_is_timeout n reports samples rest :
  microphone_inference_record n reports = Some ((false, samples), rest)
  <-> ∃ start us0 its late,
        reports = start :: us0 :: trace_reports its ++ late :: rest
        ∧ on_schedule (u32 start) (u32 us0) its
        ∧ samples = sampled its
        ∧ (Z.of_nat (length samples) < n)%Z
        ∧ (timeout_ms < u32 (u32 late - u32 start))%Z.
Proof.
  split.
  - destruct reports as [|start [|us0 rs]]; [done..|].
    rewrite record_unfold.
    intros (its & late & -> & Hsch & -> & Hn & Hlate)%record_loop_trace.
    by exists start, us0, its, late.
  - intros (start & us0 & its & late & -> & Hsch & -> & Hn & Hlate).
    rewrite record_unfold.
    apply (record_loop_times_out _ _ _ _ _ []); [|done..].
    rewrite length_app. pose proof (trace_reports_length its). simpl. lia.
Qed.

(** X5: a recording on schedule completes.  When the iterations follow
    the schedule, waiting or sampling, and the last of them takes the
    last sample of the window, the recording returns [true] after one
    more reading of the clock, with the converter's values of the
    sampling iterations, cast to [int16_t], in order. *)
Theorem record_on_time start us0 its now us a current_time t_end rest :
  on_schedule (u32 start) (u32 us0) (its ++ [Sampling now us a current_time]) ->
  microphone_inference_record (Z.of_nat (length (sampled its)) + 1)
    (start :: us0
       :: trace_reports (its ++ [Sampling now us a current_time])
       ++ t_end :: rest)
  = Some ((true, sampled its ++ [to_int16 a]), rest).
Proof.
  intros Hsch. rewrite record_unfold.
  apply (record_loop_completes _ _ _ _ _ []); [|done|done].
  rewrite length_app, trace_reports_app, length_app.
  pose proof (trace_reports_length its). simpl. lia.
Qed.

(** The scheduled times of a burst that starts within one interval of
    the wrap: from the second on they have wrapped, and lie below the
    first one. *)
Lemma burst_on_schedule start us0 (k : nat) burst later :
  (2 ^ 32 - SAMPLE_INTERVAL <= u32 us0)%Z ->
  (SAMPLE_INTERVAL * Z.of_nat (k + length burst) <= 2 ^ 32)%Z ->
  Forall (burst_iteration start us0) burst ->
  on_schedule (u32 start)
    (u32 (us0 + SAMPLE_INTERVAL * Z.of_nat (k + length burst))) later ->
  on_schedule (u32 start) (u32 (us0 + SAMPLE_INTERVAL * Z.of_nat k))
    (burst ++ later).
Proof.
  unfold SAMPLE_INTERVAL. intros Hnear. revert k.
  induction burst as [|it burst IH]; intros k Hlen Hburst Hlater.
  - simpl in *. by rewrite Nat.add_0_r in Hlater.
  - apply Forall_cons in Hburst as [Hit Hburst].
    destruct it as [|now us a cur]; [done|]. destruct Hit as [Ht Hus].
    simpl in Hlen. simpl. unfold SAMPLE_INTERVAL. split_and!.
    + done.
    + pose proof (u32_range us0). rewrite <- u32_add_l.
      destruct k as [|k].
      * rewrite Z.mul_0_r, Z.add_0_r, u32_small; lia.
      * unfold u32 at 1. rewrite <- (Z_mod_plus_full _ (-1) (2 ^ 32)).
        rewrite Z.mod_small; lia.
    + rewrite u32_add_l.
      replace (us0 + 125 * Z.of_nat k + 125)%Z
        with (us0 + 125 * Z.of_nat (S k))%Z by lia.
      apply IH; [lia|done|]. simpl in Hlater.
      by replace (S k + length burst) with (k + S (length burst)) by lia.
Qed.

Lemma burst_sampled start us0 burst :
  Forall (burst_iteration start us0) burst ->
  length (sampled burst) = length burst.
Proof.
  induction 1 as [|[|now us a cur] burst Hit _ IH]; simpl; [done|done|].
  by rewrite IH.
Qed.

(** X6: the schedule is lost where the time of the next sample wraps.
    When the first reading of the microsecond clock is within one
    [SAMPLE_INTERVAL] of 2^32, the times of the second and later
    samples wrap to small numbers while the clock still reads large
    ones: for as long as the clock has not wrapped itself, every
    iteration takes a sample, all of them less than one interval after
    the first reading.  After the burst the recording goes on from the
    scheduled time it has reached. *)
Theorem record_burst_at_rollover start us0 burst later
    now us a current_time t_end rest :
  (2 ^ 32 - SAMPLE_INTERVAL <= u32 us0)%Z ->
  (SAMPLE_INTERVAL * Z.of_nat (length burst) <= 2 ^ 32)%Z ->
  Forall (burst_iteration start us0) burst ->
  on_schedule (u32 start)
    (u32 (us0 + SAMPLE_INTERVAL * Z.of_nat (length burst)))
    (later ++ [Sampling now us a current_time]) ->
  Forall (fun it => match it with
                    | Waiting _ _ => False
                    | Sampling _ us _ _ =>
                      (0 <= u32 us - u32 us0 < SAMPLE_INTERVAL)%Z
                    end) burst
  ∧ microphone_inference_record
      (Z.of_nat (length burst + length (sampled later)) + 1)
      (start :: us0
         :: trace_reports (burst ++ later ++ [Sampling now us a current_time])
         ++ t_end :: rest)
    = Some ((true, sampled burst ++ sampled later ++ [to_int16 a]), rest).
Proof.
  intros Hnear Hlen Hburst Hlater. split.
  - eapply Forall_impl; [done|]. intros [|now' us' a' cur']; [done|].
    intros [_ Hus]. pose proof (u32_range us'). unfold SAMPLE_INTERVAL in *.
    lia.
  - pose proof (burst_on_schedule start us0 0 burst _ Hnear Hlen Hburst Hlater)
      as Hsch.
    rewrite Z.mul_0_r, Z.add_0_r in Hsch.
    rewrite app_assoc in Hsch.
    pose proof (record_on_time start us0 (burst ++ later) now us a
                  current_time t_end rest Hsch) as Hrec.
    rewrite sampled_app, length_app, (burst_sampled start us0) in Hrec by done.
    by rewrite <- !app_assoc in Hrec.
Qed.

(** * The buffer from any state *)

Section Buffer.

Context {F : Type} `{Scalar F}.
Variable FUSION_WINDOW : nat.
Variable EI_CLASSIFIER_LABEL_COUNT : nat.

Local Abbreviation well_shaped :=
  (well_shaped FUSION_WINDOW EI_CLASSIFIER_LABEL_COUNT).
Local Abbreviation fusion_push :=
  (fusion_push (F := F) FUSION_WINDOW EI_CLASSIFIER_LABEL_COUNT).
Local Abbreviation pushes :=
  (pushes (F := F) FUSION_WINDOW EI_CLASSIFIER_LABEL_COUNT).
Local Abbreviation after_pushes :=
  (after_pushes (F := F) FUSION_WINDOW EI_CLASSIFIER_LABEL_COUNT).

Lemma pushes_well_shaped st results :
  well_shaped st ->
  Forall (fun result => length result = EI_CLASSIFIER_LABEL_COUNT) results ->
  well_shaped (pushes st results).
Proof.
  intros Hst. induction results as [|result results IH] using rev_ind.
  - done.
  - intros [Hrs Hr%Forall_inv]%Forall_app.
    rewrite pushes_snoc. apply fusion_push_well_shaped; auto.
Qed.

(** From any cursor, the cursor after the pushes is the old one plus
    their number, modulo the window. *)
Lemma pushes_index st
    (results : list (list (ei_impulse_result_classification_t F))) :
  fusion_index st < FUSION_WINDOW ->
  fusion_index (pushes st results)
  = (fusion_index st + length results) `mod` FUSION_WINDOW.
Proof.
  intros Hidx. induction results as [|result results IH] using rev_ind.
  - simpl. rewrite Nat.add_0_r. by rewrite Nat.mod_small.
  - rewrite pushes_snoc, fusion_push_index, IH, length_app. simpl.
    rewrite succ_mod_wrap by lia. f_equal. lia.
Qed.

Lemma pushes_full st
    (results : list (list (ei_impulse_result_classification_t F))) :
  fusion_index st < FUSION_WINDOW ->
  fusion_buffer_full (pushes st results)
  = (fusion_buffer_full st
     || (FUSION_WINDOW <=? fusion_index st + length results)).
Proof.
  intros Hidx. induction results as [|result results IH] using rev_ind.
  - simpl. rewrite Nat.add_0_r.
    replace (FUSION_WINDOW <=? fusion_index st) with false
      by (symmetry; apply Nat.leb_gt; lia).
    by rewrite orb_false_r.
  - rewrite pushes_snoc, fusion_push_full, IH, pushes_index by done.
    rewrite length_app. simpl.
    pose proof (Nat.mod_upper_bound (fusion_index st + length results)
                  FUSION_WINDOW ltac:(lia)) as Hm.
    pose proof (Nat.Div0.mod_le (fusion_index st + length results)
                  FUSION_WINDOW) as Hle.
    destruct (FUSION_WINDOW
              <=? S ((fusion_index st + length results) `mod` FUSION_WINDOW))
      eqn:E.
    + apply Nat.leb_le in E.
      replace (FUSION_WINDOW <=? fusion_index st + (length results + 1))
        with true by (symmetry; apply Nat.leb_le; lia).
      by rewrite orb_true_r.
    + apply Nat.leb_gt in E. f_equal.
      destruct (FUSION_WINDOW <=? fusion_index st + length results) eqn:E'.
      * apply Nat.leb_le in E'. symmetry. apply Nat.leb_le. lia.
      * apply Nat.leb_gt in E'. rewrite Nat.mod_small in E by done.
        symmetry. apply Nat.leb_gt. lia.
Qed.

(** From any state of the declared shape, push number [p] of the list
    sits [p] slots after the old cursor for as long as fewer than a
    window of pushes have followed it. *)
Lemma pushes_slot st results p result :
  well_shaped st ->
  Forall (fun result => length result = EI_CLASSIFIER_LABEL_COUNT) results ->
  results !! p = Some result ->
  length results ≤ p + FUSION_WINDOW ->
  classification_buffer (pushes st results)
    !! ((fusion_index st + p) `mod` FUSION_WINDOW)
  = Some (values result).
Proof.
  intros Hst. pose proof Hst as (Hlen0 & _ & Hidx). revert p result.
  induction results as [|last results IH] using rev_ind;
    intros p result Hall Hp Hlen; [done|].
  apply Forall_app in Hall as [Hrs Hr%Forall_inv].
  pose proof (pushes_well_shaped st results Hst Hrs) as Hws.
  rewrite pushes_snoc, fusion_push_buffer_insert by done.
  rewrite pushes_index by done.
  rewrite length_app in Hlen. simpl in Hlen.
  destruct (decide (p = length results)) as [->|Hne].
  - rewrite list_lookup_middle in Hp by done. injection Hp as ->.
    apply list_lookup_insert_eq.
    destruct Hws as (-> & _ & _). apply Nat.mod_upper_bound. lia.
  - assert (Hlt : p < length results).
    { apply lookup_lt_Some in Hp. rewrite length_app in Hp. simpl in Hp. lia. }
    rewrite lookup_app_l in Hp by done.
    rewrite list_lookup_insert_ne; [apply IH; auto; lia|].
    intros Heq.
    pose proof (Nat.div_mod_eq (fusion_index st + p) FUSION_WINDOW).
    pose proof (Nat.div_mod_eq (fusion_index st + length results)
                  FUSION_WINDOW).
    assert ((fusion_index st + p) `div` FUSION_WINDOW
            < (fusion_index st + length results) `div` FUSION_WINDOW) by nia.
    nia.
Qed.

(** X7: a window of pushes replaces the whole buffer.  From any state
    of the declared shape, [FUSION_WINDOW] pushes bring the cursor back
    to where it was, leave the flag set, and fill the slots from the
    cursor on, cyclically, with the pushed vectors in order; no row of
    the old buffer is left. *)
Theorem window_of_pushes_replaces_buffer st results :
  well_shaped st ->
  length results = FUSION_WINDOW ->
  Forall (fun result => length result = EI_CLASSIFIER_LABEL_COUNT) results ->
  fusion_index (pushes st results) = fusion_index st
  ∧ fusion_buffer_full (pushes st results) = true
  ∧ (∀ k result, results !! k = Some result ->
       classification_buffer (pushes st results)
         !! ((fusion_index st + k) `mod` FUSION_WINDOW)
       = Some (values result))
  ∧ (∀ j row, classification_buffer (pushes st results) !! j = Some row ->
       ∃ k result, results !! k = Some result ∧ row = values result).
Proof.
  intros Hst Hlen Hall. pose proof Hst as (Hlen0 & _ & Hidx).
  assert (Hslot : ∀ k result, results !! k = Some result ->
    classification_buffer (pushes st results)
      !! ((fusion_index st + k) `mod` FUSION_WINDOW) = Some (values result)).
  { intros k result Hk. apply pushes_slot; try done. lia. }
  split_and!.
  - rewrite pushes_index, Hlen by done.
    replace (fusion_index st + FUSION_WINDOW)
      with (fusion_index st + 1 * FUSION_WINDOW) by lia.
    rewrite Nat.Div0.mod_add. by apply Nat.mod_small.
  - rewrite pushes_full, Hlen by done.
    replace (FUSION_WINDOW <=? fusion_index st + FUSION_WINDOW) with true
      by (symmetry; apply Nat.leb_le; lia).
    by rewrite orb_true_r.
  - done.
  - intros j row Hrow.
    pose proof (pushes_well_shaped st results Hst Hall) as (Hbuf & _ & _).
    assert (Hj : j < FUSION_WINDOW) by (apply lookup_lt_Some in Hrow; lia).
    (* the push that landed in slot [j] *)
    set (k := (j + FUSION_WINDOW - fusion_index st) `mod` FUSION_WINDOW).
    assert (Hk : k < FUSION_WINDOW) by (apply Nat.mod_upper_bound; lia).
    destruct (lookup_lt_is_Some_2 results k) as [result Hres]; [lia|].
    exists k, result. split; [done|].
    pose proof (Hslot k result Hres) as Hs.
    assert (Hjk : (fusion_index st + k) `mod` FUSION_WINDOW = j).
    { unfold k. rewrite Nat.Div0.add_mod_idemp_r.
      replace (fusion_index st + (j + FUSION_WINDOW - fusion_index st))
        with (j + 1 * FUSION_WINDOW) by lia.
      rewrite Nat.Div0.mod_add. by apply Nat.mod_small. }
    rewrite Hjk in Hs. congruence.
Qed.

(** X8: the buffer during warm-up.  After at most [FUSION_WINDOW]
    pushes from start-up the buffer holds the pushed vectors in order
    of arrival, followed by rows of zeros in the slots not yet
    written. *)
Theorem warm_up_buffer_contents results :
  length results ≤ FUSION_WINDOW ->
  Forall (fun result => length result = EI_CLASSIFIER_LABEL_COUNT) results ->
  classification_buffer (after_pushes results)
  = (values <$> results)
    ++ replicate (FUSION_WINDOW - length results)
                 (replicate EI_CLASSIFIER_LABEL_COUNT fzero).
Proof.
  induction results as [|result results IH] using rev_ind; intros Hlen Hall.
  - simpl. by rewrite Nat.sub_0_r.
  - rewrite length_app in Hlen. simpl in Hlen.
    apply Forall_app in Hall as [Hrs Hr%Forall_inv].
    assert (HW : 0 < FUSION_WINDOW) by lia.
    rewrite after_pushes_snoc, fusion_push_buffer_insert;
      [|by apply after_pushes_well_shaped|done].
    rewrite after_pushes_index, Nat.mod_small by lia.
    rewrite IH by (done || lia).
    rewrite insert_app_r_alt by (rewrite length_fmap; lia).
    rewrite length_fmap, Nat.sub_diag, fmap_app, length_app. simpl.
    replace (FUSION_WINDOW - length results)
      with (S (FUSION_WINDOW - (length results + 1))) by lia.
    simpl. by rewrite <- app_assoc.
Qed.

End Buffer.

(** * The fused scores *)

Lemma knock_eq {F : Type} `{Scalar F} (threshold : F) (fused : list F) :
  knock threshold fused = fgtb (at1 fused 1) threshold.
Proof. done. Qed.

Lemma fuse_spec_at1 {F : Type} `{Scalar F} (w n : nat)
    (weights boosts : list F) (history : list (list F)) c :
  c < n ->
  at1 (fuse_spec w n weights boosts history) c
  = fmul (at1 boosts c) (weighted_score weights w history c).
Proof.
  intros Hc. unfold fuse_spec, at1 at 1.
  rewrite nth_lookup.
  change (map ?f ?l) with (f <$> l).
  by rewrite list_lookup_fmap, lookup_seq_lt.
Qed.

Lemma binary32_mul_comm (x y : binary32) : fmul x y = fmul y x.
Proof.
  destruct x as [sx|sx| |sx mx ex], y as [sy|sy| |sy my ey]; simpl;
    try done; try (by rewrite xorb_comm).
  by rewrite xorb_comm, Pos.mul_comm, Z.add_comm.
Qed.

Section Columns.

Context {F : Type} `{Scalar F}.
Variable FUSION_WINDOW : nat.
Variable EI_CLASSIFIER_LABEL_COUNT : nat.
Variable fusion_weights : list F.
Variable class_boost : list F.
Variable KNOCK_THRESHOLD : F.

Local Abbreviation fuse :=
  (fuse FUSION_WINDOW EI_CLASSIFIER_LABEL_COUNT fusion_weights class_boost).
Local Abbreviation fuse_spec :=
  (fuse_spec FUSION_WINDOW EI_CLASSIFIER_LABEL_COUNT fusion_weights
             class_boost).
Local Abbreviation knock := (knock KNOCK_THRESHOLD).
Local Abbreviation after_pushes :=
  (after_pushes (F := F) FUSION_WINDOW EI_CLASSIFIER_LABEL_COUNT).
Local Abbreviation history_spec := (history_spec (F := F) FUSION_WINDOW).

Lemma running_sum_ext (term term' : nat -> F) n :
  (∀ i, i < n -> term i = term' i) ->
  foldl (fun acc i => fadd acc (term i)) fzero (seq 0 n)
  = foldl (fun acc i => fadd acc (term' i)) fzero (seq 0 n).
Proof.
  induction n as [|n IH]; intros Hterm; [done|].
  rewrite !seq_S, !foldl_snoc, IH, Hterm by (intros; apply Hterm || idtac; lia).
  done.
Qed.

Lemma weighted_score_ext n (buf buf' : list (list F)) c :
  (∀ i, i < n -> at2 buf i c = at2 buf' i c) ->
  weighted_score fusion_weights n buf c
  = weighted_score fusion_weights n buf' c.
Proof.
  induction n as [|n IH]; intros Hcol; [done|].
  rewrite !weighted_score_S, IH, Hcol by (intros; apply Hcol || idtac; lia).
  done.
Qed.

(** X10: every fused score reads one column of the buffer.  Two
    buffers with the same scores of class [c] in their
    [FUSION_WINDOW] rows give the same fused score of class [c],
    whatever the scores of the other classes; so the verdict, which
    reads class 1, is the same for buffers that agree on the Knock
    scores. *)
Theorem fused_score_reads_own_column (buf buf' : list (list F)) c :
  c < EI_CLASSIFIER_LABEL_COUNT ->
  (∀ i, i < FUSION_WINDOW -> at2 buf i c = at2 buf' i c) ->
  at1 (fuse buf) c = at1 (fuse buf') c
  ∧ (c = 1 -> knock (fuse buf) = knock (fuse buf')).
Proof.
  intros Hc Hcol.
  assert (Heq : at1 (fuse buf) c = at1 (fuse buf') c).
  { rewrite !fuse_at1 by done. by rewrite (weighted_score_ext _ buf buf'). }
  split; [done|]. intros ->. by rewrite !knock_eq, Heq.
Qed.

(** X9: the weight of a recent vector.  After at least a window of
    pushes from start-up, the vector pushed [k] pushes before the last
    one sits in slot [(n - 1 - k) mod FUSION_WINDOW], [n] being the
    number of pushes, and the weighted sum multiplies the row of slot
    [i] by [fusion_weights[i]]: the fused score of a class is the sum,
    over the slots [i], of [fusion_weights[i]] times the score of the
    vector pushed [(n - 1 - i) mod FUSION_WINDOW] pushes before the
    last one, times the boost.  The most recent vector is in the last
    slot, under the last weight, exactly when [n] is a multiple of the
    window. *)
Theorem recent_vector_weight results c :
  0 < FUSION_WINDOW ->
  FUSION_WINDOW ≤ length results ->
  Forall (fun result => length result = EI_CLASSIFIER_LABEL_COUNT) results ->
  c < EI_CLASSIFIER_LABEL_COUNT ->
  let n := length results in
  let buf := classification_buffer (after_pushes results) in
  (∀ k result, k < FUSION_WINDOW ->
     results !! (n - 1 - k) = Some result ->
     buf !! ((n - 1 - k) `mod` FUSION_WINDOW) = Some (values result))
  ∧ at1 (fuse buf) c
    = fmul (foldl (fun acc i =>
                     fadd acc
                       (fmul (at1 fusion_weights i)
                             (at2 (values <$> results)
                                  (n - 1 - (n - 1 - i) `mod` FUSION_WINDOW) c)))
                  fzero (seq 0 FUSION_WINDOW))
           (at1 class_boost c)
  ∧ ((n - 1) `mod` FUSION_WINDOW = FUSION_WINDOW - 1
     <-> n `mod` FUSION_WINDOW = 0).
Proof.
  intros HW Hge Hall Hc n buf.
  assert (Hslot : ∀ k result, k < FUSION_WINDOW ->
    results !! (n - 1 - k) = Some result ->
    buf !! ((n - 1 - k) `mod` FUSION_WINDOW) = Some (values result)).
  { intros k result Hk Hres.
    apply (after_pushes_slot FUSION_WINDOW EI_CLASSIFIER_LABEL_COUNT
             results _ result HW Hall Hres). fold n. lia. }
  split_and!.
  - done.
  - rewrite fuse_at1 by done. f_equal. apply running_sum_ext.
    intros i Hi. f_equal.
    set (k := (n - 1 - i) `mod` FUSION_WINDOW).
    assert (Hk : k < FUSION_WINDOW) by (apply Nat.mod_upper_bound; lia).
    pose proof (Nat.div_mod_eq (n - 1 - i) FUSION_WINDOW) as Hdiv.
    fold k in Hdiv.
    destruct (lookup_lt_is_Some_2 results (n - 1 - k)) as [result Hres];
      [fold n; lia|].
    pose proof (Hslot k result Hk Hres) as Hrow.
    assert (Hi' : (n - 1 - k) `mod` FUSION_WINDOW = i).
    { replace (n - 1 - k)
        with (i + (n - 1 - i) `div` FUSION_WINDOW * FUSION_WINDOW) by lia.
      rewrite Nat.Div0.mod_add. by apply Nat.mod_small. }
    rewrite Hi' in Hrow. unfold at2.
    rewrite (nth_lookup_Some _ _ _ _ Hrow).
    assert (Hh : (values <$> results) !! (n - 1 - k) = Some (values result))
      by by rewrite list_lookup_fmap, Hres.
    by rewrite (nth_lookup_Some _ _ _ _ Hh).
  - pose proof (Nat.div_mod_eq n FUSION_WINDOW) as Hn.
    pose proof (Nat.mod_upper_bound n FUSION_WINDOW ltac:(lia)) as Hr.
    pose proof (succ_mod_wrap (n - 1) FUSION_WINDOW ltac:(lia)) as Hsucc.
    replace (S (n - 1)) with n in Hsucc by (unfold n; lia).
    pose proof (Nat.mod_upper_bound (n - 1) FUSION_WINDOW ltac:(lia)) as Hr'.
    destruct (FUSION_WINDOW <=? S ((n - 1) `mod` FUSION_WINDOW)) eqn:E.
    + apply Nat.leb_le in E. split; intros; lia.
    + apply Nat.leb_gt in E. split; intros; lia.
Qed.

(** X11: when the number of pushes since start-up is a multiple of
    the window (and at least one window), the rows of the buffer are
    the last [FUSION_WINDOW] vectors in order of arrival, and the
    fused scores are those of the specification's formula over them,
    evaluated in the arithmetic of the sketch with the terms added
    from the oldest to the newest; the verdict is its decision at
    class 1.  The arithmetic only has to have a commutative product,
    as [float] has. *)
Theorem aligned_fusion_matches_formula results c :
  (∀ x y : F, fmul x y = fmul y x) ->
  0 < FUSION_WINDOW ->
  FUSION_WINDOW ≤ length results ->
  length results `mod` FUSION_WINDOW = 0 ->
  Forall (fun result => length result = EI_CLASSIFIER_LABEL_COUNT) results ->
  c < EI_CLASSIFIER_LABEL_COUNT ->
  classification_buffer (after_pushes results)
  = history_spec (values <$> results)
  ∧ at1 (fuse (classification_buffer (after_pushes results))) c
    = at1 (fuse_spec (history_spec (values <$> results))) c
  ∧ (c = 1 ->
     knock (fuse (classification_buffer (after_pushes results)))
     = decide_spec (fuse_spec (history_spec (values <$> results))) 1
                   KNOCK_THRESHOLD).
Proof.
  intros Hcomm HW Hge Hmod Hall Hc.
  pose proof (after_pushes_aligned FUSION_WINDOW EI_CLASSIFIER_LABEL_COUNT
                results HW Hall Hge Hmod) as Hbuf.
  assert (Heq : at1 (fuse (classification_buffer (after_pushes results))) c
                = at1 (fuse_spec (history_spec (values <$> results))) c).
  { rewrite Hbuf. rewrite fuse_at1, fuse_spec_at1 by done. apply Hcomm. }
  split_and!; [done..|]. intros ->.
  rewrite knock_eq. unfold decide_spec. by rewrite Heq.
Qed.

End Columns.

Lemma Q_fgtb_true (x threshold : Q) :
  fgtb x threshold = true <-> (threshold < x)%Q.
Proof.
  simpl. destruct (Qlt_le_dec threshold x); split; try done.
  intros. exfalso. lra.
Qed.

Lemma Q_fgtb_false (x threshold : Q) :
  fgtb x threshold = false <-> (x <= threshold)%Q.
Proof.
  simpl. destruct (Qlt_le_dec threshold x); split; try done.
  intros. exfalso. lra.
Qed.

Lemma Q_fgtb_proper (x y threshold : Q) :
  (x == y)%Q -> fgtb x threshold = fgtb y threshold.
Proof.
  intros Hxy. destruct (fgtb y threshold) eqn:E.
  - apply Q_fgtb_true. apply Q_fgtb_true in E. lra.
  - apply Q_fgtb_false. apply Q_fgtb_false in E. lra.
Qed.

Section Exact.

Variable FUSION_WINDOW : nat.
Variable EI_CLASSIFIER_LABEL_COUNT : nat.
Variable fusion_weights : list Q.
Variable class_boost : list Q.
Variable KNOCK_THRESHOLD : Q.

Local Abbreviation fuse :=
  (fuse FUSION_WINDOW EI_CLASSIFIER_LABEL_COUNT fusion_weights class_boost).
Local Abbreviation knock := (knock KNOCK_THRESHOLD).

Lemma total_weight_S n (weights : list Q) :
  total_weight (S n) weights = (total_weight n weights + at1 weights n)%Q.
Proof. unfold total_weight. by rewrite seq_S, foldl_snoc. Qed.

Lemma weighted_score_between n (buf : list (list Q)) c (lo hi : Q) :
  (∀ i, i < n -> (0 <= at1 fusion_weights i)%Q) ->
  (∀ i, i < n -> (lo <= at2 buf i c <= hi)%Q) ->
  (total_weight n fusion_weights * lo
   <= weighted_score fusion_weights n buf c
   <= total_weight n fusion_weights * hi)%Q.
Proof.
  induction n as [|n IH]; intros Hw Hb.
  - unfold weighted_score, total_weight. simpl. lra.
  - rewrite weighted_score_S, total_weight_S. simpl.
    pose proof (Hw n ltac:(lia)). pose proof (Hb n ltac:(lia)).
    destruct IH; [intros; apply Hw; lia|intros; apply Hb; lia|].
    nra.
Qed.

Lemma weighted_score_mono n (buf buf' : list (list Q)) c :
  (∀ i, i < n -> (0 <= at1 fusion_weights i)%Q) ->
  (∀ i, i < n -> (at2 buf i c <= at2 buf' i c)%Q) ->
  (weighted_score fusion_weights n buf c
   <= weighted_score fusion_weights n buf' c)%Q.
Proof.
  induction n as [|n IH]; intros Hw Hb.
  - unfold weighted_score. simpl. lra.
  - rewrite !weighted_score_S. simpl.
    pose proof (Hw n ltac:(lia)). pose proof (Hb n ltac:(lia)).
    pose proof (IH ltac:(intros; apply Hw; lia) ltac:(intros; apply Hb; lia)).
    nra.
Qed.

(** X13: the fusion is monotone in the scores.  With weights and a
    boost that are not negative, raising scores of class [c] in the
    buffer never lowers its fused score; with class 1, a buffer that
    gives a knock still gives one after its Knock scores are raised. *)
Theorem fused_score_monotone (buf buf' : list (list Q)) c :
  c < EI_CLASSIFIER_LABEL_COUNT ->
  (∀ i, i < FUSION_WINDOW -> (0 <= at1 fusion_weights i)%Q) ->
  (0 <= at1 class_boost c)%Q ->
  (∀ i, i < FUSION_WINDOW -> (at2 buf i c <= at2 buf' i c)%Q) ->
  (at1 (fuse buf) c <= at1 (fuse buf') c)%Q
  ∧ (c = 1 -> knock (fuse buf) = true -> knock (fuse buf') = true).
Proof.
  intros Hc Hw Hboost Hb.
  assert (Hle : (at1 (fuse buf) c <= at1 (fuse buf') c)%Q).
  { rewrite !fuse_at1 by done. simpl.
    pose proof (weighted_score_mono FUSION_WINDOW buf buf' c Hw Hb). nra. }
  split; [done|]. intros -> Hk. rewrite knock_eq in *.
  apply Q_fgtb_true. apply Q_fgtb_true in Hk. lra.
Qed.

End Exact.

(** X14: the sketch as configured, on a window of Knock scores
    between [lo] and [hi].  Read as real numbers, no knock is reported
    when all of them are at most 0.125, and a knock is reported when
    all of them are above 0.125.  The [float] code has the same
    boundary: five Knock scores of [0.125f] give the fused score
    [0.25f] and no knock, and five scores of the next [float] above
    [0.125f] give a knock. *)
Theorem nano33_knock_band (buf : list (list Q)) (lo hi : Q) :
  (∀ i, i < Nano33.FUSION_WINDOW -> (lo <= at2 buf i 1 <= hi)%Q) ->
  ((hi <= 0.125)%Q ->
   knock Nano33.KNOCK_THRESHOLD (nano33_fuse buf) = false)
  ∧ ((0.125 < lo)%Q ->
     knock Nano33.KNOCK_THRESHOLD (nano33_fuse buf) = true)
  ∧ (let eighth := binary32_literal 125 1000 in
     at1 (fuse 5 3 Nano33Float.fusion_weights Nano33Float.class_boost
               (replicate 5 [fzero; eighth; fzero])) 1
     = Nano33Float.KNOCK_THRESHOLD
     ∧ knock Nano33Float.KNOCK_THRESHOLD
         (fuse 5 3 Nano33Float.fusion_weights Nano33Float.class_boost
               (replicate 5 [fzero; eighth; fzero])) = false
     ∧ knock Nano33Float.KNOCK_THRESHOLD
         (fuse 5 3 Nano33Float.fusion_weights Nano33Float.class_boost
               (replicate 5 [fzero; binary32_succ eighth; fzero])) = true).
Proof.
  intros Hb.
  pose proof (weighted_score_between Nano33.fusion_weights
                Nano33.FUSION_WINDOW buf 1 lo hi nano33_weights_nonneg Hb)
    as Hband.
  rewrite nano33_weights_total in Hband.
  assert (Hfuse : (at1 (nano33_fuse buf) 1
                   == weighted_score Nano33.fusion_weights
                        Nano33.FUSION_WINDOW buf 1 * 2)%Q).
  { rewrite fuse_at1 by (vm_compute; lia). simpl.
    apply Qmult_comp; [done|by vm_compute]. }
  assert (Hthr : (Nano33.KNOCK_THRESHOLD == 0.25)%Q) by by vm_compute.
  split_and!.
  - intros Hhi. rewrite knock_eq. apply Q_fgtb_false. lra.
  - intros Hlo. rewrite knock_eq. apply Q_fgtb_true. lra.
  - by vm_compute.
Qed.

(** * Runs of the sketch *)

(** The serial lines of pushes made in a row, without the cycles
    around them. *)
Fixpoint fusion_lines {F : Type} `{Scalar F} (w n : nat)
    (weights boosts : list F) (threshold : F) (st : fusion_state F)
    (results : list (list (ei_impulse_result_classification_t F)))
    : list (serial_line F) :=
  match results with
  | [] => []
  | result :: results' =>
    snd (fusion_cycle w n weights boosts threshold st result)
    ++ fusion_lines w n weights boosts threshold
         (fusion_push w n st result) results'
  end.

Lemma record_count n reports recorded samples rest :
  (0 <= n)%Z ->
  microphone_inference_record n reports = Some ((recorded, samples), rest) ->
  (0 <= Z.of_nat (length samples) <= n)%Z.
Proof.
  intros Hn Hrec. unfold microphone_inference_record in Hrec.
  destruct reports as [|start [|us0 rs]]; [done..|].
  cbv beta iota delta [hw_bind millis micros hw_read hw_ret] in Hrec.
  apply record_loop_samples in Hrec as [_ Hlen]; [|done].
  destruct recorded; [|lia]. specialize (Hlen ltac:(simpl; lia)). lia.
Qed.

(** With the recorder started, the stores of a recording stay in the
    block. *)
Lemma store_samples_started inference n reports recorded samples rest :
  recorder_started inference ->
  n = n_samples inference ->
  microphone_inference_record n reports = Some ((recorded, samples), rest) ->
  store_samples inference samples
  = Returned {| buffer := buffer inference;
                buf_count := Z.of_nat (length samples);
                n_samples := n_samples inference |}.
Proof.
  unfold recorder_started, store_samples. intros Hst -> Hrec.
  destruct (buffer inference) as [|capacity|]; [done| |done].
  pose proof (record_count _ _ _ _ _ (proj1 Hst) Hrec).
  by replace (Z.of_nat (length samples) <=? capacity)%Z with true
    by (symmetry; apply Z.leb_le; lia).
Qed.

(** [loop()] and [run], by cases. *)
Lemma loop_eq {F : Type} `{Scalar F} (w c : nat) (weights boosts : list F)
    (threshold : F)
    (classifier :
       list Z -> EI_IMPULSE_ERROR * list (ei_impulse_result_classification_t F))
    (g : sketch_globals F) (reports : list Z) :
  loop w c weights boosts threshold classifier g reports
  = match microphone_inference_record (n_samples (inference g)) reports with
    | None => None
    | Some ((recorded, samples), _) =>
      match store_samples (inference g) samples with
      | Undefined => Some Undefined
      | Returned inference' =>
        if negb recorded
        then Some (Returned ({| fusion := fusion g;
                                inference := inference' |}, []))
        else
          if negb (fst (classifier samples) =? EI_IMPULSE_OK)%Z then
            match microphone_inference_end inference' with
            | Undefined => Some Undefined
            | Returned inference'' =>
              Some (Returned ({| fusion := fusion g;
                                 inference := inference'' |}, []))
            end
          else
            Some (Returned
                    ({| fusion := fusion_push w c (fusion g)
                                    (snd (classifier samples));
                        inference := inference' |},
                     snd (fusion_cycle w c weights boosts threshold (fusion g)
                            (snd (classifier samples)))))
      end
    end.
Proof.
  unfold loop.
  destruct (microphone_inference_record _ reports)
    as [[[recorded samples] rest]|]; [|done].
  destruct (store_samples _ samples); [|done].
  destruct recorded; [|done]. simpl.
  by destruct (classifier samples).
Qed.

Lemma run_cons {F : Type} `{Scalar F} (w c : nat) (weights boosts : list F)
    (threshold : F)
    (classifier :
       list Z -> EI_IMPULSE_ERROR * list (ei_impulse_result_classification_t F))
    (g : sketch_globals F) (reports : list Z) (cycles : list (list Z)) :
  run w c weights boosts threshold classifier g (reports :: cycles)
  = match loop w c weights boosts threshold classifier g reports with
    | None => None
    | Some Undefined => Some Undefined
    | Some (Returned (g', out)) =>
      match run w c weights boosts threshold classifier g' cycles with
      | None => None
      | Some Undefined => Some Undefined
      | Some (Returned (g'', outs)) => Some (Returned (g'', out :: outs))
      end
    end.
Proof. done. Qed.

Lemma pushed_cons {F : Type}
    (classifier :
       list Z -> EI_IMPULSE_ERROR * list (ei_impulse_result_classification_t F))
    (n : Z) reports cycles :
  pushed classifier n (reports :: cycles)
  = match acquired classifier n reports with
    | Some (Some result) => result :: pushed classifier n cycles
    | _ => pushed classifier n cycles
    end.
Proof.
  unfold pushed. simpl.
  by destruct (acquired classifier n reports) as [[?|]|].
Qed.

(** A classifier that fills the classification array pushes arrays of
    that length only. *)
Lemma pushed_lengths {F : Type} (labels : nat)
    (classifier :
       list Z -> EI_IMPULSE_ERROR * list (ei_impulse_result_classification_t F))
    (n : Z) cycles :
  (∀ samples, length (snd (classifier samples)) = labels) ->
  Forall (fun result => length result = labels) (pushed classifier n cycles).
Proof.
  intros Hclassifier. apply Forall_forall. intros result Hin.
  unfold pushed in Hin.
  apply list_elem_of_omap in Hin as (reports & _ & Hacq).
  unfold acquired in Hacq.
  destruct (microphone_inference_record _ reports)
    as [[[[|] samples] rest]|]; try done.
  destruct (negb _); [done|]. injection Hacq as <-. apply Hclassifier.
Qed.

Lemma acquired_eq {F : Type}
    (classifier :
       list Z -> EI_IMPULSE_ERROR * list (ei_impulse_result_classification_t F))
    (n : Z) reports :
  acquired classifier n reports
  = match microphone_inference_record n reports with
    | None => None
    | Some ((false, _), _) => Some None
    | Some ((true, samples), _) =>
      if negb (fst (classifier samples) =? EI_IMPULSE_OK)%Z then Some None
      else Some (Some (snd (classifier samples)))
    end.
Proof. done. Qed.

Lemma classifier_fails_eq {F : Type}
    (classifier :
       list Z -> EI_IMPULSE_ERROR * list (ei_impulse_result_classification_t F))
    (n : Z) reports :
  classifier_fails classifier n reports
  = match microphone_inference_record n reports with
    | Some ((true, samples), _) =>
      negb (fst (classifier samples) =? EI_IMPULSE_OK)%Z
    | _ => false
    end.
Proof. done. Qed.

(** The recorder after [setup()]. *)
Lemma setup_started (n : Z) :
  (0 <= n < 2 ^ 31)%Z ->
  setup n true = {| buffer := LiveBlock n; buf_count := 0; n_samples := n |}.
Proof.
  intros Hn. unfold setup, microphone_inference_start. simpl.
  rewrite (u32_small n) by lia. rewrite u32_small by lia.
  by rewrite Z.div_mul.
Qed.

Lemma setup_failed (n : Z) : setup n false = inference_initial.
Proof. done. Qed.

Lemma start_up_eq {F : Type} `{Scalar F} (w c : nat) (n : Z) (malloc_ok : bool) :
  start_up w c n malloc_ok
  = {| fusion := initial_state w c; inference := setup n malloc_ok |}.
Proof. done. Qed.

Section Runs.

Context {F : Type} `{Scalar F}.
Variable FUSION_WINDOW : nat.
Variable EI_CLASSIFIER_LABEL_COUNT : nat.
Variable fusion_weights : list F.
Variable class_boost : list F.
Variable KNOCK_THRESHOLD : F.
Variable EI_CLASSIFIER_RAW_SAMPLE_COUNT : Z.
Variable run_classifier :
  list Z -> EI_IMPULSE_ERROR * list (ei_impulse_result_classification_t F).

Local Abbreviation well_shaped :=
  (well_shaped FUSION_WINDOW EI_CLASSIFIER_LABEL_COUNT).
Local Abbreviation initial_state :=
  (initial_state (F := F) FUSION_WINDOW EI_CLASSIFIER_LABEL_COUNT).
Local Abbreviation fusion_push :=
  (fusion_push (F := F) FUSION_WINDOW EI_CLASSIFIER_LABEL_COUNT).
Local Abbreviation pushes :=
  (pushes (F := F) FUSION_WINDOW EI_CLASSIFIER_LABEL_COUNT).
Local Abbreviation after_pushes :=
  (after_pushes (F := F) FUSION_WINDOW EI_CLASSIFIER_LABEL_COUNT).
Local Abbreviation fusion_cycle :=
  (fusion_cycle FUSION_WINDOW EI_CLASSIFIER_LABEL_COUNT fusion_weights
                class_boost KNOCK_THRESHOLD).
Local Abbreviation fusion_lines :=
  (fusion_lines FUSION_WINDOW EI_CLASSIFIER_LABEL_COUNT fusion_weights
                class_boost KNOCK_THRESHOLD).
Local Abbreviation setup := (setup EI_CLASSIFIER_RAW_SAMPLE_COUNT).
Local Abbreviation start_up :=
  (start_up (F := F) FUSION_WINDOW EI_CLASSIFIER_LABEL_COUNT
            EI_CLASSIFIER_RAW_SAMPLE_COUNT).
Local Abbreviation loop :=
  (loop FUSION_WINDOW EI_CLASSIFIER_LABEL_COUNT fusion_weights class_boost
        KNOCK_THRESHOLD run_classifier).
Local Abbreviation run :=
  (run FUSION_WINDOW EI_CLASSIFIER_LABEL_COUNT fusion_weights class_boost
       KNOCK_THRESHOLD run_classifier).
Local Abbreviation acquired := (acquired run_classifier).
Local Abbreviation classifier_fails := (classifier_fails run_classifier).
Local Abbreviation pushed := (pushed run_classifier).

(** The globals with the sample count of a recording. *)
Definition counted (g : sketch_globals F) (samples : list Z)
    : sketch_globals F :=
  {| fusion := fusion g;
     inference := {| buffer := buffer (inference g);
                     buf_count := Z.of_nat (length samples);
                     n_samples := n_samples (inference g) |} |}.

(** ** One cycle *)

(** A cycle reads of the audio globals the block and the window
    length, and not the count of the recording before. *)
Lemma loop_counted g samples reports :
  loop (counted g samples) reports = loop g reports.
Proof. by rewrite !loop_eq. Qed.

(** What a cycle does to the fusion globals and to the window
    length, whenever it returns. *)
Lemma loop_returned g reports g' out :
  loop g reports = Some (Returned (g', out)) ->
  n_samples (inference g') = n_samples (inference g)
  ∧ (fusion g', out)
    = match acquired (n_samples (inference g)) reports with
      | Some (Some result) => fusion_cycle (fusion g) result
      | _ => (fusion g, [])
      end.
Proof.
  rewrite loop_eq, acquired_eq.
  destruct (microphone_inference_record _ reports)
    as [[[recorded samples] rest]|]; [|done].
  destruct (store_samples (inference g) samples) as [inference'|] eqn:Es;
    [|done].
  assert (Hn : n_samples inference' = n_samples (inference g)).
  { unfold store_samples in Es. repeat case_match; try done;
      by injection Es as <-. }
  unfold microphone_inference_end.
  destruct recorded; simpl.
  - destruct (negb _).
    + destruct (buffer inference'); [intros [= <- <-]|intros [= <- <-]|done];
        done.
    + by intros [= <- <-].
  - by intros [= <- <-].
Qed.

Lemma loop_timeout g reports samples rest :
  recorder_started (inference g) ->
  microphone_inference_record (n_samples (inference g)) reports
  = Some ((false, samples), rest) ->
  loop g reports = Some (Returned (counted g samples, [])).
Proof.
  intros Hst Hrec.
  pose proof (store_samples_started _ _ _ _ _ _ Hst eq_refl Hrec) as Hstore.
  by rewrite loop_eq, Hrec, Hstore.
Qed.

Lemma loop_classifier_failure g reports samples rest :
  recorder_started (inference g) ->
  microphone_inference_record (n_samples (inference g)) reports
  = Some ((true, samples), rest) ->
  fst (run_classifier samples) ≠ EI_IMPULSE_OK ->
  loop g reports
  = Some (Returned ({| fusion := fusion g;
                       inference :=
                         {| buffer := FreedBlock;
                            buf_count := Z.of_nat (length samples);
                            n_samples := n_samples (inference g) |} |}, [])).
Proof.
  intros Hst Hrec Hr.
  pose proof (store_samples_started _ _ _ _ _ _ Hst eq_refl Hrec) as Hstore.
  rewrite loop_eq, Hrec, Hstore. simpl.
  apply Z.eqb_neq in Hr. rewrite Hr. simpl.
  unfold microphone_inference_end. simpl.
  unfold recorder_started in Hst. by destruct (buffer (inference g)).
Qed.

Lemma loop_push g reports samples rest :
  recorder_started (inference g) ->
  microphone_inference_record (n_samples (inference g)) reports
  = Some ((true, samples), rest) ->
  fst (run_classifier samples) = EI_IMPULSE_OK ->
  loop g reports
  = Some (Returned
            ({| fusion := fusion_push (fusion g) (snd (run_classifier samples));
                inference := inference (counted g samples) |},
             snd (fusion_cycle (fusion g) (snd (run_classifier samples))))).
Proof.
  intros Hst Hrec Hr.
  pose proof (store_samples_started _ _ _ _ _ _ Hst eq_refl Hrec) as Hstore.
  rewrite loop_eq, Hrec, Hstore. simpl.
  apply Z.eqb_eq in Hr. by rewrite Hr.
Qed.

(** A cycle through a freed block is undefined as soon as the
    recording takes a sample. *)
Lemma loop_freed g reports recorded sample samples rest :
  buffer (inference g) = FreedBlock ->
  microphone_inference_record (n_samples (inference g)) reports
  = Some ((recorded, sample :: samples), rest) ->
  loop g reports = Some Undefined.
Proof.
  intros Hb Hrec. rewrite loop_eq, Hrec. unfold store_samples.
  by rewrite Hb.
Qed.

(** From a started recorder every cycle returns, if its reports reach
    the end of the recording; the block stays as it was unless the
    classifier fails. *)
Lemma loop_returns g reports :
  recorder_started (inference g) ->
  acquired (n_samples (inference g)) reports ≠ None ->
  ∃ g' out,
    loop g reports = Some (Returned (g', out))
    ∧ (classifier_fails (n_samples (inference g)) reports = false ->
       recorder_started (inference g')
       ∧ buffer (inference g') = buffer (inference g)
       ∧ (0 <= buf_count (inference g') <= n_samples (inference g))%Z).
Proof.
  intros Hst. rewrite acquired_eq, classifier_fails_eq.
  destruct (microphone_inference_record _ reports)
    as [[[recorded samples] rest]|] eqn:Hrec; [|done]. intros _.
  assert (Hn : (0 <= n_samples (inference g))%Z).
  { unfold recorder_started in Hst.
    destruct (buffer (inference g)); [done|lia|done]. }
  pose proof (record_count _ _ _ _ _ Hn Hrec) as Hcount.
  destruct recorded.
  - destruct (decide (fst (run_classifier samples) = EI_IMPULSE_OK)) as [Hr|Hr].
    + eexists _, _. split; [by eapply loop_push|]. intros _. by simpl.
    + eexists _, _. split; [by eapply loop_classifier_failure|].
      apply Z.eqb_neq in Hr. by rewrite Hr.
  - eexists _, _. split; [by eapply loop_timeout|]. intros _. by simpl.
Qed.

(** C7: a cycle that fails.  With the recorder started, a cycle whose
    recording returns [false] (the timeout) or whose classifier
    returns an error code makes no push, prints no fusion line and
    leaves buffer, cursor and flag as they were.  After a timeout the
    next cycle runs as it would have run without the failed one.
    After a classifier failure it does not: [loop()] has freed the
    block of samples and nothing allocates it again, so the next cycle
    whose recording takes a sample stores it through the dangling
    pointer, where the same cycle without the failed one returns. *)
Theorem failed_cycle_then_next g reports samples rest :
  recorder_started (inference g) ->
  (microphone_inference_record (n_samples (inference g)) reports
   = Some ((false, samples), rest) ->
   ∃ g',
     loop g reports = Some (Returned (g', []))
     ∧ fusion g' = fusion g
     ∧ pushed (n_samples (inference g)) [reports] = []
     ∧ ∀ reports', loop g' reports' = loop g reports')
  ∧ (microphone_inference_record (n_samples (inference g)) reports
     = Some ((true, samples), rest) ->
     fst (run_classifier samples) ≠ EI_IMPULSE_OK ->
     ∃ g',
       loop g reports = Some (Returned (g', []))
       ∧ fusion g' = fusion g
       ∧ pushed (n_samples (inference g)) [reports] = []
       ∧ buffer (inference g') = FreedBlock
       ∧ ∀ reports' recorded sample samples' rest',
           microphone_inference_record (n_samples (inference g)) reports'
           = Some ((recorded, sample :: samples'), rest') ->
           loop g' reports' = Some Undefined
           ∧ ∃ g'' out, loop g reports' = Some (Returned (g'', out))).
Proof.
  intros Hst. split.
  - intros Hrec. exists (counted g samples). split_and!.
    + by eapply loop_timeout.
    + done.
    + by rewrite pushed_cons, acquired_eq, Hrec.
    + intros reports'. apply loop_counted.
  - intros Hrec Hr. eexists. split_and!.
    + by eapply loop_classifier_failure.
    + done.
    + rewrite pushed_cons, acquired_eq, Hrec.
      apply Z.eqb_neq in Hr. by rewrite Hr.
    + done.
    + intros reports' recorded sample samples' rest' Hrec'. split.
      * by eapply loop_freed.
      * destruct (loop_returns g reports' Hst) as (g'' & out & Hloop & _).
        { rewrite acquired_eq, Hrec'. destruct recorded; [|done].
          by destruct (negb _). }
        by exists g'', out.
Qed.

(** ** Several cycles *)

(** A run in two parts. *)
Lemma run_app g cycles cycles' :
  run g (cycles ++ cycles')
  = match run g cycles with
    | None => None
    | Some Undefined => Some Undefined
    | Some (Returned (g', outs)) =>
      match run g' cycles' with
      | None => None
      | Some Undefined => Some Undefined
      | Some (Returned (g'', outs')) => Some (Returned (g'', outs ++ outs'))
      end
    end.
Proof.
  revert g. induction cycles as [|reports cycles IH]; intros g.
  - simpl. by destruct (run g cycles') as [[[??]|]|].
  - rewrite <- app_comm_cons, !run_cons.
    destruct (loop g reports) as [[[g1 out]|]|]; [|done..].
    rewrite IH. destruct (run g1 cycles) as [[[g2 outs]|]|]; [|done..].
    by destruct (run g2 cycles') as [[[??]|]|].
Qed.

(** A run that returns has pushed the results of its successful
    cycles, and printed their fusion lines, one output per cycle; the
    window length is what it was. *)
Lemma run_returned cycles g g' outs :
  run g cycles = Some (Returned (g', outs)) ->
  n_samples (inference g') = n_samples (inference g)
  ∧ fusion g' = pushes (fusion g) (pushed (n_samples (inference g)) cycles)
  ∧ concat outs
    = fusion_lines (fusion g) (pushed (n_samples (inference g)) cycles)
  ∧ length outs = length cycles.
Proof.
  revert g g' outs. induction cycles as [|reports cycles IH];
    intros g g' outs Hrun.
  - by injection Hrun as <- <-.
  - rewrite run_cons in Hrun.
    destruct (loop g reports) as [[[g1 out]|]|] eqn:El; [|done..].
    destruct (run g1 cycles) as [[[g2 outs2]|]|] eqn:Er; [|done..].
    injection Hrun as <- <-.
    apply loop_returned in El as [Hn Hf].
    apply IH in Er as (Hn2 & Hf2 & Hlines & Hlen). rewrite Hn in *.
    rewrite pushed_cons.
    destruct (acquired (n_samples (inference g)) reports) as [[result|]|].
    + assert (Hf1 : fusion g1 = fusion_push (fusion g) result)
        by by apply (f_equal fst) in Hf.
      assert (Hout : out = snd (fusion_cycle (fusion g) result))
        by by apply (f_equal snd) in Hf.
      rewrite Hf1 in *. subst out.
      split_and!; [congruence|exact Hf2| |simpl; by rewrite Hlen].
      exact (f_equal (app _) Hlines).
    + injection Hf as Hf ->. rewrite Hf in *.
      split_and!; [congruence|done|done|simpl; by rewrite Hlen].
    + injection Hf as Hf ->. rewrite Hf in *.
      split_and!; [congruence|done|done|simpl; by rewrite Hlen].
Qed.

(** From a started recorder a run returns, if the reports of every
    cycle reach the end of its recording and the classifier never
    fails: the block stays live. *)
Lemma run_returns cycles g :
  recorder_started (inference g) ->
  (0 <= buf_count (inference g) <= n_samples (inference g))%Z ->
  Forall (fun reports => acquired (n_samples (inference g)) reports ≠ None)
         cycles ->
  Forall (fun reports =>
            classifier_fails (n_samples (inference g)) reports = false)
         cycles ->
  ∃ g' outs,
    run g cycles = Some (Returned (g', outs))
    ∧ recorder_started (inference g')
    ∧ buffer (inference g') = buffer (inference g)
    ∧ (0 <= buf_count (inference g') <= n_samples (inference g))%Z.
Proof.
  revert g. induction cycles as [|reports cycles IH];
    intros g Hst Hcount Hacq Hok.
  - by exists g, [].
  - apply Forall_cons in Hacq as [Hacq Hacqs].
    apply Forall_cons in Hok as [Hok Hoks].
    destruct (loop_returns g reports Hst Hacq) as (g1 & out & Hloop & Hkeep).
    destruct (Hkeep Hok) as (Hst1 & Hb1 & Hc1).
    pose proof (loop_returned _ _ _ _ Hloop) as [Hn1 _].
    destruct (IH g1) as (g2 & outs & Hrun & Hst2 & Hb2 & Hc2);
      rewrite ?Hn1; try done.
    exists g2, (out :: outs). rewrite run_cons, Hloop, Hrun.
    rewrite Hn1 in Hc2.
    refine (conj _ (conj _ (conj _ _))); [done|done|congruence|done].
Qed.

(** X15: a run is the fusion of what its cycles pushed.  From a
    started recorder, when the reports of every cycle reach the end of
    its recording and the classifier never fails, the run returns;
    the fusion globals after it, and the serial lines printed during
    it, are those of pushing the classification results of the cycles
    that recorded a window, in a row, with one output per cycle:
    cycles whose recording timed out leave no trace in either. *)
Theorem run_is_fusion_of_pushed g cycles :
  recorder_started (inference g) ->
  (0 <= buf_count (inference g) <= n_samples (inference g))%Z ->
  Forall (fun reports => acquired (n_samples (inference g)) reports ≠ None)
         cycles ->
  Forall (fun reports =>
            classifier_fails (n_samples (inference g)) reports = false)
         cycles ->
  ∃ g' outs,
    run g cycles = Some (Returned (g', outs))
    ∧ fusion g' = pushes (fusion g) (pushed (n_samples (inference g)) cycles)
    ∧ concat outs
      = fusion_lines (fusion g) (pushed (n_samples (inference g)) cycles)
    ∧ length outs = length cycles.
Proof.
  intros Hst Hcount Hacq Hok.
  destruct (run_returns cycles g Hst Hcount Hacq Hok) as (g' & outs & Hrun & _).
  exists g', outs. split; [done|].
  by apply run_returned in Hrun as (_ & ? & ? & ?).
Qed.

Lemma pushed_app n cycles cycles' :
  pushed n (cycles ++ cycles') = pushed n cycles ++ pushed n cycles'.
Proof. apply omap_app. Qed.

(** The number of reports a run from start-up has printed. *)
Lemma run_report_count_returned cycles g g' outs :
  0 < FUSION_WINDOW ->
  fusion g = initial_state ->
  run g cycles = Some (Returned (g', outs)) ->
  length (omap head outs)
  = length (pushed (n_samples (inference g)) cycles) - (FUSION_WINDOW - 1).
Proof.
  intros HW Hinit. revert g' outs.
  induction cycles as [|reports cycles IH] using rev_ind; intros g' outs Hrun.
  - by injection Hrun as <- <-.
  - rewrite run_app in Hrun.
    destruct (run g cycles) as [[[g1 outs1]|]|] eqn:E; [|done..].
    pose proof (IH _ _ eq_refl) as Hcount.
    apply run_returned in E as (Hn1 & Hf1 & _ & _).
    rewrite run_cons in Hrun.
    destruct (loop g1 reports) as [[[g2 out]|]|] eqn:El; [|done..].
    injection Hrun as <- <-.
    apply loop_returned in El as [_ Hf2]. rewrite Hn1 in Hf2.
    rewrite omap_app, pushed_app, !length_app, Hcount, pushed_cons.
    destruct (acquired (n_samples (inference g)) reports) as [[result|]|].
    + assert (Hout : out = snd (fusion_cycle (fusion g1) result))
        by by apply (f_equal snd) in Hf2.
      subst out. rewrite Hf1, Hinit.
      simpl.
      change (pushes initial_state ?l) with (after_pushes l).
      rewrite <- after_pushes_snoc, after_pushes_full by done.
      rewrite length_app. simpl.
      destruct (FUSION_WINDOW <=? length (pushed (n_samples (inference g))
                                                  cycles) + 1) eqn:Ew.
      * apply Nat.leb_le in Ew. simpl. lia.
      * apply Nat.leb_gt in Ew. simpl. lia.
    + injection Hf2 as _ ->. simpl. lia.
    + injection Hf2 as _ ->. simpl. lia.
Qed.

Lemma start_up_inference :
  (0 <= EI_CLASSIFIER_RAW_SAMPLE_COUNT < 2 ^ 31)%Z ->
  inference (start_up true)
  = {| buffer := LiveBlock EI_CLASSIFIER_RAW_SAMPLE_COUNT;
       buf_count := 0;
       n_samples := EI_CLASSIFIER_RAW_SAMPLE_COUNT |}.
Proof. intros HN. rewrite start_up_eq. simpl. by apply setup_started. Qed.

(** X16: how many reports a run prints.  In a run from start-up, after
    a [setup()] whose [malloc] succeeded, the cycles that print a
    fusion report are the pushing cycles from the [FUSION_WINDOW]-th
    on: when the reports of every cycle reach the end of its recording
    and the classifier never fails, the run returns, and the number of
    its reports is the number of pushes less [FUSION_WINDOW - 1], and
    zero while fewer pushes have been made. *)
Theorem run_report_count cycles :
  0 < FUSION_WINDOW ->
  (0 <= EI_CLASSIFIER_RAW_SAMPLE_COUNT < 2 ^ 31)%Z ->
  Forall (fun reports => acquired EI_CLASSIFIER_RAW_SAMPLE_COUNT reports ≠ None)
         cycles ->
  Forall (fun reports =>
            classifier_fails EI_CLASSIFIER_RAW_SAMPLE_COUNT reports = false)
         cycles ->
  ∃ g' outs,
    run (start_up true) cycles = Some (Returned (g', outs))
    ∧ length (omap head outs)
      = length (pushed EI_CLASSIFIER_RAW_SAMPLE_COUNT cycles)
        - (FUSION_WINDOW - 1).
Proof.
  intros HW HN Hacq Hok. pose proof (start_up_inference HN) as Hinf.
  destruct (run_returns cycles (start_up true)) as (g' & outs & Hrun & _).
  - unfold recorder_started. rewrite Hinf. simpl. lia.
  - rewrite Hinf. simpl. lia.
  - by rewrite Hinf.
  - by rewrite Hinf.
  - exists g', outs. split; [done|].
    apply run_report_count_returned in Hrun; [|done|done].
    by rewrite Hinf in Hrun.
Qed.

(** X17: a run keeps the fusion globals in shape.  From globals of the
    declared shape, with a classifier that fills the whole
    classification array, every state a run reaches has
    [FUSION_WINDOW] rows of [EI_CLASSIFIER_LABEL_COUNT] scores and a
    cursor below [FUSION_WINDOW]: no cycle writes outside the buffer. *)
Theorem run_keeps_shape g cycles cycles' g' outs :
  well_shaped (fusion g) ->
  (∀ samples,
      length (snd (run_classifier samples)) = EI_CLASSIFIER_LABEL_COUNT) ->
  run g (cycles ++ cycles') = Some (Returned (g', outs)) ->
  ∃ g1 outs1,
    run g cycles = Some (Returned (g1, outs1)) ∧ well_shaped (fusion g1).
Proof.
  intros Hst Hclassifier Hrun. rewrite run_app in Hrun.
  destruct (run g cycles) as [[[g1 outs1]|]|] eqn:E; [|done..].
  exists g1, outs1. split; [done|].
  apply run_returned in E as (_ & -> & _ & _).
  apply pushes_well_shaped; [done|]. by apply pushed_lengths.
Qed.

(** X18: the recordings stay inside the block.  After a [setup()]
    whose [malloc] succeeded, for a window of fewer than 2^31 samples,
    the block has room for exactly the window.  When the reports of
    every cycle reach the end of its recording and the classifier
    never fails, the run returns: no sample is stored outside the
    block, the block is still live after the run, the window length is
    unchanged, and the sample count is at most the window length. *)
Theorem recordings_stay_in_block cycles :
  (0 <= EI_CLASSIFIER_RAW_SAMPLE_COUNT < 2 ^ 31)%Z ->
  Forall (fun reports => acquired EI_CLASSIFIER_RAW_SAMPLE_COUNT reports ≠ None)
         cycles ->
  Forall (fun reports =>
            classifier_fails EI_CLASSIFIER_RAW_SAMPLE_COUNT reports = false)
         cycles ->
  ∃ g' outs,
    run (start_up true) cycles = Some (Returned (g', outs))
    ∧ buffer (inference g') = LiveBlock EI_CLASSIFIER_RAW_SAMPLE_COUNT
    ∧ n_samples (inference g') = EI_CLASSIFIER_RAW_SAMPLE_COUNT
    ∧ (0 <= buf_count (inference g') <= EI_CLASSIFIER_RAW_SAMPLE_COUNT)%Z.
Proof.
  intros HN Hacq Hok. pose proof (start_up_inference HN) as Hinf.
  destruct (run_returns cycles (start_up true))
    as (g' & outs & Hrun & _ & Hb & Hc).
  - unfold recorder_started. rewrite Hinf. simpl. lia.
  - rewrite Hinf. simpl. lia.
  - by rewrite Hinf.
  - by rewrite Hinf.
  - exists g', outs.
    pose proof (run_returned _ _ _ _ Hrun) as (Hn & _).
    rewrite Hinf in Hb, Hc, Hn. simpl in Hb, Hc, Hn.
    by refine (conj _ (conj _ (conj _ _))).
Qed.


End Runs.
(** * Further instances *)

Abbreviation nano33_loop :=
  (loop Nano33.FUSION_WINDOW Nano33.EI_CLASSIFIER_LABEL_COUNT
        Nano33.fusion_weights Nano33.class_boost Nano33.KNOCK_THRESHOLD).
Abbreviation nano33_run :=
  (run Nano33.FUSION_WINDOW Nano33.EI_CLASSIFIER_LABEL_COUNT
       Nano33.fusion_weights Nano33.class_boost Nano33.KNOCK_THRESHOLD).
Abbreviation nano33_start_up :=
  (start_up (F := Q) Nano33.FUSION_WINDOW Nano33.EI_CLASSIFIER_LABEL_COUNT).
Abbreviation nano33_float_fuse :=
  (fuse Nano33.FUSION_WINDOW Nano33.EI_CLASSIFIER_LABEL_COUNT
        Nano33Float.fusion_weights Nano33Float.class_boost).
Abbreviation nano33_float_fuse_spec :=
  (fuse_spec Nano33.FUSION_WINDOW Nano33.EI_CLASSIFIER_LABEL_COUNT
             Nano33Float.fusion_weights Nano33Float.class_boost).
Abbreviation nano33_float_after :=
  (after_pushes (F := binary32) Nano33.FUSION_WINDOW
                Nano33.EI_CLASSIFIER_LABEL_COUNT).

(** The constants of the sketch as [float] values: mantissa and
    exponent of [0.05f] to [0.35f], of the boosts and of [0.25f]. *)
Example nano33_float_constants :
  Nano33Float.fusion_weights
  = [ S754_finite false 13421773 (-28); S754_finite false 13421773 (-27);
      S754_finite false 13421773 (-26); S754_finite false 10066330 (-25);
      S754_finite false 11744051 (-25) ]
  ∧ Nano33Float.class_boost
    = [ S754_finite false 8388608 (-23); S754_finite false 8388608 (-22);
        S754_finite false 8388608 (-23) ]
  ∧ Nano33Float.KNOCK_THRESHOLD = S754_finite false 8388608 (-25).
Proof. by vm_compute. Qed.

(** Scenario A in [float]: the fused Knock score is the [float] next
    above [0.21f], and the line printed is the no-knock line. *)
Example scenario_A_float :
  let quiet := Nano33Float.classification fzero fzero fzero in
  let fifth :=
    Nano33Float.classification fzero (binary32_literal 3 10) fzero in
  let fused :=
    nano33_float_fuse
      (classification_buffer (nano33_float_after (replicate 4 quiet ++ [fifth])))
  in
  at1 fused 1 = binary32_succ (binary32_literal 21 100)
  ∧ knock Nano33Float.KNOCK_THRESHOLD fused = false.
Proof. by vm_compute. Qed.

(** A recording of two samples that completes, and the cycle around
    it: the classifier's result is pushed. *)
Example loop_pushes_result :
  let classifier := fun _ : list Z =>
    (EI_IMPULSE_OK, Nano33.classification 0 0.30 0) in
  let g := nano33_start_up 2 true in
  nano33_loop classifier g
    [0; 0; 1; 4294967295; 512; 1; 2; 4294967295; 600; 2; 3]%Z
  = Some (Returned
            ({| fusion := nano33_push (fusion g)
                            (Nano33.classification 0 0.30 0);
                inference := {| buffer := LiveBlock 2;
                                buf_count := 2;
                                n_samples := 2 |} |}, [])).
Proof. by vm_compute. Qed.

(** The use after [free]: the classifier fails in the first cycle, and
    the second cycle stores its first sample through the dangling
    pointer.  With a classifier that does not fail the same two cycles
    return. *)
Example use_after_free :
  let failing := fun _ : list Z =>
    ((-5)%Z, Nano33.classification 0 0.30 0) in
  let working := fun _ : list Z =>
    (EI_IMPULSE_OK, Nano33.classification 0 0.30 0) in
  let recorded :=
    [0; 0; 1; 4294967295; 512; 1; 2; 4294967295; 600; 2; 3]%Z in
  nano33_run failing (nano33_start_up 2 true) [recorded; recorded]
  = Some Undefined
  ∧ nano33_run working (nano33_start_up 2 true) [recorded; recorded]
    = Some (Returned
              ({| fusion := nano33_after
                              (replicate 2 (Nano33.classification 0 0.30 0));
                  inference := {| buffer := LiveBlock 2;
                                  buf_count := 2;
                                  n_samples := 2 |} |}, [[]; []])).
Proof. by vm_compute. Qed.

Lemma failed_cycle_then_next_witness :
  let classifier := fun _ : list Z =>
    ((-5)%Z, Nano33.classification 0 0.30 0) in
  let g := nano33_start_up 2 true in
  let recorded :=
    [0; 0; 1; 4294967295; 512; 1; 2; 4294967295; 600; 2; 3]%Z in
  ∃ g',
    nano33_loop classifier g recorded = Some (Returned (g', []))
    ∧ fusion g' = fusion g
    ∧ pushed classifier (n_samples (inference g)) [recorded] = []
    ∧ buffer (inference g') = FreedBlock
    ∧ ∀ reports' recorded' sample samples' rest',
        microphone_inference_record (n_samples (inference g)) reports'
        = Some ((recorded', sample :: samples'), rest') ->
        nano33_loop classifier g' reports' = Some Undefined
        ∧ ∃ g'' out,
            nano33_loop classifier g reports' = Some (Returned (g'', out)).
Proof.
  intros classifier g recorded.
  apply (proj2 (failed_cycle_then_next Nano33.FUSION_WINDOW
                  Nano33.EI_CLASSIFIER_LABEL_COUNT Nano33.fusion_weights
                  Nano33.class_boost Nano33.KNOCK_THRESHOLD classifier
                  g recorded [512; 600]%Z []
                  ltac:(vm_compute; split; discriminate))).
  - reflexivity.
  - vm_compute. discriminate.
Defined.

Lemma record_true_complete_witness :
  Z.of_nat (length [512; 600]%Z) = 2%Z ∧ Forall int16_range [512; 600]%Z.
Proof.
  apply (record_true_complete 2
           [0; 0; 1; 4294967295; 512; 1; 2; 4294967295; 600; 2; 3]%Z
           [512; 600]%Z []).
  - lia.
  - reflexivity.
Defined.

Lemma record_false_is_timeout_witness :
  ∃ start us0 its late,
    [0; 0; 1; 3; 512; 1; 2; 50; 10001]%Z
    = start :: us0 :: trace_reports its ++ late :: []
    ∧ on_schedule (u32 start) (u32 us0) its
    ∧ [512%Z] = sampled its
    ∧ (Z.of_nat (length [512%Z]) < 2)%Z
    ∧ (timeout_ms < u32 (u32 late - u32 start))%Z.
Proof.
  apply (proj1 (record_false_is_timeout 2
                  [0; 0; 1; 3; 512; 1; 2; 50; 10001]%Z
                  [512%Z] [])).
  reflexivity.
Defined.

Lemma record_empty_window_witness :
  microphone_inference_record 0 [5; 6; 7; 8]%Z = Some ((true, []), [8%Z]).
Proof. apply (record_empty_window 0 5 6 7 [8%Z]). lia. Defined.

Lemma record_never_ahead_witness : length [7; 9]%Z ≤ 2.
Proof.
  apply (record_never_ahead 3 4294957296 0
           [0; 0; 7; 0; 0; 130; 9; 0; 0; 200; 1]%Z 2 false [7; 9]%Z []).
  - reflexivity.
  - intros r Hr. revert r Hr. apply Forall_forall.
    repeat (constructor; [reflexivity|]). constructor.
  - reflexivity.
Defined.

Lemma record_on_time_witness :
  let its := [Sampling 4294967292 135 512 4294967292;
              Waiting 0 200; Waiting 1 254] in
  microphone_inference_record (Z.of_nat (length (sampled its)) + 1)
    (4294967290 :: 130
       :: trace_reports (its ++ [Sampling 2 260 70000 3]) ++ 4 :: [])%Z
  = Some ((true, sampled its ++ [to_int16 70000]), []).
Proof.
  apply (record_on_time 4294967290 130
           [Sampling 4294967292 135 512 4294967292;
            Waiting 0 200; Waiting 1 254] 2 260 70000 3 4 []).
  vm_compute. repeat split; discriminate.
Defined.

Lemma record_burst_at_rollover_witness :
  let burst := [Sampling 0 4294967200 512 0; Sampling 0 4294967230 600 0;
                Sampling 0 4294967260 700 1] in
  let later := [Waiting 1 4; Waiting 1 150] in
  Forall (fun it => match it with
                    | Waiting _ _ => False
                    | Sampling _ us _ _ =>
                      (0 <= u32 us - u32 4294967200 < SAMPLE_INTERVAL)%Z
                    end) burst
  ∧ microphone_inference_record
      (Z.of_nat (length burst + length (sampled later)) + 1)
      (0 :: 4294967200
         :: trace_reports (burst ++ later ++ [Sampling 1 280 800 1])
         ++ 2 :: [])%Z
    = Some ((true, sampled burst ++ sampled later ++ [to_int16 800]), []).
Proof.
  apply (record_burst_at_rollover 0 4294967200
           [Sampling 0 4294967200 512 0; Sampling 0 4294967230 600 0;
            Sampling 0 4294967260 700 1]
           [Waiting 1 4; Waiting 1 150] 1 280 800 1 2 []).
  - by vm_compute.
  - by vm_compute.
  - repeat constructor; by vm_compute.
  - vm_compute. repeat split; discriminate.
Defined.

Lemma window_of_pushes_replaces_buffer_witness :
  let st := nano33_after [Nano33.classification 1 0 0;
                          Nano33.classification 0 1 0] in
  let results := replicate 5 (Nano33.classification 0 0.2 0) in
  fusion_index (pushes Nano33.FUSION_WINDOW Nano33.EI_CLASSIFIER_LABEL_COUNT
                       st results) = fusion_index st
  ∧ fusion_buffer_full
      (pushes Nano33.FUSION_WINDOW Nano33.EI_CLASSIFIER_LABEL_COUNT
              st results) = true
  ∧ (∀ k result, results !! k = Some result ->
       classification_buffer
         (pushes Nano33.FUSION_WINDOW Nano33.EI_CLASSIFIER_LABEL_COUNT
                 st results)
         !! ((fusion_index st + k) `mod` Nano33.FUSION_WINDOW)
       = Some (values result))
  ∧ (∀ j row,
       classification_buffer
         (pushes Nano33.FUSION_WINDOW Nano33.EI_CLASSIFIER_LABEL_COUNT
                 st results) !! j = Some row ->
       ∃ k result, results !! k = Some result ∧ row = values result).
Proof.
  apply (window_of_pushes_replaces_buffer Nano33.FUSION_WINDOW
           Nano33.EI_CLASSIFIER_LABEL_COUNT).
  - apply after_pushes_well_shaped; [vm_compute; lia|repeat constructor].
  - reflexivity.
  - repeat constructor.
Defined.

Lemma warm_up_buffer_contents_witness :
  let results := [Nano33.classification 1 0 0;
                  Nano33.classification 0 1 0] in
  classification_buffer (nano33_after results)
  = (values <$> results)
    ++ replicate (Nano33.FUSION_WINDOW - length results)
                 (replicate Nano33.EI_CLASSIFIER_LABEL_COUNT (fzero : Q)).
Proof.
  apply (warm_up_buffer_contents Nano33.FUSION_WINDOW
           Nano33.EI_CLASSIFIER_LABEL_COUNT).
  - vm_compute. lia.
  - repeat constructor.
Defined.

Lemma recent_vector_weight_witness :
  let latest := Nano33.classification 0 1 0 in
  let results := replicate 5 (Nano33.classification 0 0 0) ++ [latest] in
  let n := length results in
  let buf := classification_buffer (nano33_after results) in
  (∀ k result, k < Nano33.FUSION_WINDOW ->
     results !! (n - 1 - k) = Some result ->
     buf !! ((n - 1 - k) `mod` Nano33.FUSION_WINDOW) = Some (values result))
  ∧ at1 (nano33_fuse buf) 1
    = fmul (foldl (fun acc i =>
                     fadd acc
                       (fmul (at1 Nano33.fusion_weights i)
                             (at2 (values <$> results)
                                  (n - 1 - (n - 1 - i) `mod` Nano33.FUSION_WINDOW)
                                  1)))
                  fzero (seq 0 Nano33.FUSION_WINDOW))
           (at1 Nano33.class_boost 1)
  ∧ ((n - 1) `mod` Nano33.FUSION_WINDOW = Nano33.FUSION_WINDOW - 1
     <-> n `mod` Nano33.FUSION_WINDOW = 0).
Proof.
  apply (recent_vector_weight Nano33.FUSION_WINDOW
           Nano33.EI_CLASSIFIER_LABEL_COUNT).
  - vm_compute. lia.
  - vm_compute. lia.
  - repeat constructor.
  - vm_compute. lia.
Defined.

Lemma fused_score_reads_own_column_witness :
  let buf := replicate 5 [0; 0.2; 0]%Q in
  let buf' := replicate 5 [0.7; 0.2; 0.1]%Q in
  at1 (nano33_fuse buf) 1 = at1 (nano33_fuse buf') 1
  ∧ (1 = 1 ->
     knock Nano33.KNOCK_THRESHOLD (nano33_fuse buf)
     = knock Nano33.KNOCK_THRESHOLD (nano33_fuse buf')).
Proof.
  apply (fused_score_reads_own_column Nano33.FUSION_WINDOW
           Nano33.EI_CLASSIFIER_LABEL_COUNT).
  - vm_compute. lia.
  - intros i Hi. do 5 (destruct i as [|i]; [reflexivity|]).
    vm_compute in Hi. lia.
Defined.

Lemma aligned_fusion_matches_formula_witness :
  let quiet := Nano33Float.classification fzero fzero fzero in
  let fifth :=
    Nano33Float.classification fzero (binary32_literal 3 10) fzero in
  let results := replicate 4 quiet ++ [fifth] in
  classification_buffer (nano33_float_after results)
  = history_spec Nano33.FUSION_WINDOW (values <$> results)
  ∧ at1 (nano33_float_fuse (classification_buffer (nano33_float_after results)))
        1
    = at1 (nano33_float_fuse_spec
             (history_spec Nano33.FUSION_WINDOW (values <$> results))) 1
  ∧ (1 = 1 ->
     knock Nano33Float.KNOCK_THRESHOLD
           (nano33_float_fuse
              (classification_buffer (nano33_float_after results)))
     = decide_spec
         (nano33_float_fuse_spec
            (history_spec Nano33.FUSION_WINDOW (values <$> results)))
         1 Nano33Float.KNOCK_THRESHOLD).
Proof.
  apply (aligned_fusion_matches_formula Nano33.FUSION_WINDOW
           Nano33.EI_CLASSIFIER_LABEL_COUNT).
  - apply binary32_mul_comm.
  - vm_compute. lia.
  - vm_compute. lia.
  - reflexivity.
  - repeat constructor.
  - vm_compute. lia.
Defined.

Lemma fused_score_monotone_witness :
  let buf := replicate 5 [0; 0.2; 0]%Q in
  let buf' := replicate 5 [0; 0.3; 0]%Q in
  (at1 (nano33_fuse buf) 1 <= at1 (nano33_fuse buf') 1)%Q
  ∧ (1 = 1 ->
     knock Nano33.KNOCK_THRESHOLD (nano33_fuse buf) = true ->
     knock Nano33.KNOCK_THRESHOLD (nano33_fuse buf') = true).
Proof.
  apply (fused_score_monotone Nano33.FUSION_WINDOW
           Nano33.EI_CLASSIFIER_LABEL_COUNT).
  - vm_compute. lia.
  - apply nano33_weights_nonneg.
  - by vm_compute.
  - intros i Hi. do 5 (destruct i as [|i]; [by vm_compute|]).
    vm_compute in Hi. lia.
Defined.

Lemma nano33_knock_band_witness :
  let buf := replicate 5 [0; 0.2; 0]%Q in
  ((0.2 <= 0.125)%Q ->
   knock Nano33.KNOCK_THRESHOLD (nano33_fuse buf) = false)
  ∧ ((0.125 < 0.2)%Q ->
     knock Nano33.KNOCK_THRESHOLD (nano33_fuse buf) = true)
  ∧ (let eighth := binary32_literal 125 1000 in
     at1 (fuse 5 3 Nano33Float.fusion_weights Nano33Float.class_boost
               (replicate 5 [fzero; eighth; fzero])) 1
     = Nano33Float.KNOCK_THRESHOLD
     ∧ knock Nano33Float.KNOCK_THRESHOLD
         (fuse 5 3 Nano33Float.fusion_weights Nano33Float.class_boost
               (replicate 5 [fzero; eighth; fzero])) = false
     ∧ knock Nano33Float.KNOCK_THRESHOLD
         (fuse 5 3 Nano33Float.fusion_weights Nano33Float.class_boost
               (replicate 5 [fzero; binary32_succ eighth; fzero])) = true).
Proof.
  apply (nano33_knock_band (replicate 5 [0; 0.2; 0]%Q) 0.2 0.2).
  intros i Hi. do 5 (destruct i as [|i]; [by vm_compute|]).
  vm_compute in Hi. lia.
Defined.

Lemma run_is_fusion_of_pushed_witness :
  let classifier := fun _ : list Z =>
    (EI_IMPULSE_OK, Nano33.classification 0 0.30 0) in
  let timed_out := [0; 0; 1; 4294967295; 512; 1; 10001]%Z in
  let recorded :=
    [0; 0; 1; 4294967295; 512; 1; 2; 4294967295; 600; 2; 3]%Z in
  let g := nano33_start_up 2 true in
  let cycles := [timed_out; recorded] in
  ∃ g' outs,
    nano33_run classifier g cycles = Some (Returned (g', outs))
    ∧ fusion g'
      = pushes Nano33.FUSION_WINDOW Nano33.EI_CLASSIFIER_LABEL_COUNT
               (fusion g) (pushed classifier (n_samples (inference g)) cycles)
    ∧ concat outs
      = fusion_lines Nano33.FUSION_WINDOW Nano33.EI_CLASSIFIER_LABEL_COUNT
          Nano33.fusion_weights Nano33.class_boost Nano33.KNOCK_THRESHOLD
          (fusion g) (pushed classifier (n_samples (inference g)) cycles)
    ∧ length outs = length cycles.
Proof.
  apply (run_is_fusion_of_pushed Nano33.FUSION_WINDOW
           Nano33.EI_CLASSIFIER_LABEL_COUNT Nano33.fusion_weights
           Nano33.class_boost Nano33.KNOCK_THRESHOLD).
  - vm_compute. split; discriminate.
  - vm_compute. split; discriminate.
  - repeat constructor; by vm_compute.
  - repeat constructor; by vm_compute.
Defined.

Lemma run_report_count_witness :
  let result := Nano33.classification 0 0.2 0 in
  let classifier := fun _ : list Z => (EI_IMPULSE_OK, result) in
  let timed_out := [0; 0; 1; 4294967295; 512; 1; 10001]%Z in
  let recorded :=
    [0; 0; 1; 4294967295; 512; 1; 2; 4294967295; 600; 2; 3]%Z in
  let cycles := replicate 3 recorded ++ [timed_out] ++ replicate 3 recorded in
  ∃ g' outs,
    nano33_run classifier (nano33_start_up 2 true) cycles
    = Some (Returned (g', outs))
    ∧ length (omap head outs)
      = length (pushed classifier 2 cycles) - (Nano33.FUSION_WINDOW - 1).
Proof.
  apply (run_report_count Nano33.FUSION_WINDOW
           Nano33.EI_CLASSIFIER_LABEL_COUNT Nano33.fusion_weights
           Nano33.class_boost Nano33.KNOCK_THRESHOLD 2).
  - vm_compute. lia.
  - lia.
  - repeat constructor; by vm_compute.
  - repeat constructor; by vm_compute.
Defined.

Lemma run_keeps_shape_witness :
  let classifier := fun _ : list Z =>
    (EI_IMPULSE_OK, Nano33.classification 0 0.30 0) in
  let recorded :=
    [0; 0; 1; 4294967295; 512; 1; 2; 4294967295; 600; 2; 3]%Z in
  ∃ g1 outs1,
    nano33_run classifier (nano33_start_up 2 true) [recorded]
    = Some (Returned (g1, outs1))
    ∧ well_shaped Nano33.FUSION_WINDOW Nano33.EI_CLASSIFIER_LABEL_COUNT
                  (fusion g1).
Proof.
  apply (run_keeps_shape Nano33.FUSION_WINDOW
           Nano33.EI_CLASSIFIER_LABEL_COUNT Nano33.fusion_weights
           Nano33.class_boost Nano33.KNOCK_THRESHOLD _ (nano33_start_up 2 true)
           _ [[0; 0; 1; 4294967295; 512; 1; 10001]%Z]
           {| fusion := nano33_push (nano33_after [])
                          (Nano33.classification 0 0.30 0);
              inference := {| buffer := LiveBlock 2;
                              buf_count := 1;
                              n_samples := 2 |} |}
           [[]; []]).
  - apply initial_state_well_shaped. vm_compute. lia.
  - reflexivity.
  - reflexivity.
Defined.

Lemma recordings_stay_in_block_witness :
  let classifier := fun _ : list Z =>
    (EI_IMPULSE_OK, Nano33.classification 0 0.30 0) in
  let timed_out := [0; 0; 1; 4294967295; 512; 1; 10001]%Z in
  let recorded :=
    [0; 0; 1; 4294967295; 512; 1; 2; 4294967295; 600; 2; 3]%Z in
  ∃ g' outs,
    nano33_run classifier (nano33_start_up 2 true) [recorded; timed_out]
    = Some (Returned (g', outs))
    ∧ buffer (inference g') = LiveBlock 2
    ∧ n_samples (inference g') = 2%Z
    ∧ (0 <= buf_count (inference g') <= 2)%Z.
Proof.
  apply (recordings_stay_in_block Nano33.FUSION_WINDOW
           Nano33.EI_CLASSIFIER_LABEL_COUNT Nano33.fusion_weights
           Nano33.class_boost Nano33.KNOCK_THRESHOLD 2).
  - lia.
  - repeat constructor; by vm_compute.
  - repeat constructor; by vm_compute.
Defined.

